(** * petbacker-test: the feed loader and the path recorder

    A shallow embedding of the two components of the application,
    [src/components/InfiniteScroller.vue] and
    [src/components/GpsTracker.vue], with the properties their
    specification states.

    JavaScript numbers are IEEE 754 binary64 values, modelled by Rocq's
    primitive floats.  The reactive variables of a component become the
    fields of a record that every handler takes and returns.  An [async]
    function is split at its [await]: the part that runs when it is called,
    and the part that runs when the awaited promise settles. *)

From Stdlib Require Import PrimFloat.
From stdpp Require Import gmap strings list.

(** ** JavaScript values used by both components *)

Module Js.

(** Truthiness of a value of type [string | null | undefined]: [null],
    [undefined] and the empty string are falsy. *)
Definition truthy (v : option string) : bool :=
  match v with
  | None => false
  | Some s => negb (String.eqb s "")
  end.

(** [v || null] on a value of type [string | undefined]. *)
Definition or_null (v : option string) : option string :=
  if truthy v then v else None.

(** [v === ""] on a value of type [string | null]. *)
Definition is_empty_string (v : option string) : bool :=
  match v with
  | None => false
  | Some s => String.eqb s ""
  end.

(** [v === null] on a value of type [string | null]. *)
Definition is_null (v : option string) : bool :=
  match v with
  | None => true
  | Some _ => false
  end.

(** [v || []] on a value of type [T[] | null | undefined]; an array, also
    the empty one, is truthy. *)
Definition or_empty {A} (v : option (list A)) : list A :=
  match v with
  | None => []
  | Some l => l
  end.

End Js.

(** ** InfiniteScroller.vue *)

Module Feed.

Record MediaItem := { media_filename : string }.

Record ContentItem := {
  title : string;
  description : string;
  medias : option (list MediaItem)
}.

(** The values stored in the [params] object of a request. *)
Inductive ParamValue :=
| PNum (n : Z)
| PStr (s : string).

(** What [axios.get(url, { params })] sends. *)
Record Request := {
  url : string;
  params : gmap string ParamValue
}.

(** How the promise of [axios.get] settles: resolved with a body
    ([response.data]) and the value of the [tag] header
    ([response.headers["tag"]], [None] when the header is absent), or
    rejected with an error. *)
Inductive Response :=
| Resolved (data : option (list ContentItem)) (tagHeader : option string)
| Rejected (err : string).

(** The lines the component writes to the console. *)
Inductive ConsoleEntry :=
| LogFetching                (* "[loadContent] Fetching data..." *)
| LogReceived (n : nat)      (* "[loadContent] Received ${n} items" *)
| LogNoMore                  (* "[loadContent] No more content available." *)
| LogTotal (n : nat)         (* "[loadContent] Total content items:", n *)
| ErrFetching (err : string) (* console.error("[loadContent] Error fetching content:", err) *)
| LogScroll                  (* "[scroll] Midway preload triggered" *)
| LogObserver.               (* "[observer] Sentinel triggered load" *)

(** The reactive state of the component, the console, and the requests
    sent so far (oldest first). *)
Record State := {
  content : list ContentItem;
  nextTag : option string;
  isLoading : bool;
  console : list ConsoleEntry;
  requests : list Request;
  inFlight : nat          (* promises of [axios.get] not yet settled *)
}.

Definition initial : State :=
  {| content := []; nextTag := None; isLoading := false;
     console := []; requests := []; inFlight := 0 |}.

Definition set_isLoading (b : bool) (st : State) : State :=
  {| content := content st; nextTag := nextTag st; isLoading := b;
     console := console st; requests := requests st;
     inFlight := inFlight st |}.

Definition set_nextTag (t : option string) (st : State) : State :=
  {| content := content st; nextTag := t; isLoading := isLoading st;
     console := console st; requests := requests st;
     inFlight := inFlight st |}.

Definition push_content (items : list ContentItem) (st : State) : State :=
  {| content := content st ++ items; nextTag := nextTag st;
     isLoading := isLoading st; console := console st;
     requests := requests st; inFlight := inFlight st |}.

Definition log (e : ConsoleEntry) (st : State) : State :=
  {| content := content st; nextTag := nextTag st;
     isLoading := isLoading st; console := console st ++ [e];
     requests := requests st; inFlight := inFlight st |}.

Definition send (r : Request) (st : State) : State :=
  {| content := content st; nextTag := nextTag st;
     isLoading := isLoading st; console := console st;
     requests := requests st ++ [r]; inFlight := S (inFlight st) |}.

Definition settle (st : State) : State :=
  {| content := content st; nextTag := nextTag st;
     isLoading := isLoading st; console := console st;
     requests := requests st; inFlight := pred (inFlight st) |}.

Definition endpoint : string := "https://pbapi.forwen.com/v5/moments".

(** The [params] object built by [loadContent]. *)
Definition build_params (tag : option string) : gmap string ParamValue :=
  let base : gmap string ParamValue :=
    <["refresh" := PNum 1]>
      (<["type" := PNum 0]>
        (<["auth" := PNum 0]>
          (<["per_page" := PNum 8]> ∅))) in
  match tag with
  | Some t => if Js.truthy tag then <["tag" := PStr t]> base else base
  | None => base
  end.

(** [loadContent], up to its [await]. *)
Definition loadContent (st : State) : State :=
  if isLoading st || Js.is_empty_string (nextTag st) then st
  else
    let st := set_isLoading true st in
    let st := log LogFetching st in
    send {| url := endpoint; params := build_params (nextTag st) |} st.

(** [loadContent], from the point where the awaited promise settles: the
    rest of the [try] block or the [catch] block, then [finally]. *)
Definition loadContent_resume (r : Response) (st : State) : State :=
  let st :=
    match r with
    | Resolved data tagHeader =>
        let newItems := Js.or_empty data in
        let st := log (LogReceived (length newItems)) st in
        let st :=
          if 0 <? length newItems then
            let st := push_content newItems st in
            set_nextTag (Js.or_null tagHeader) st
          else
            let st := set_nextTag None st in
            log LogNoMore st in
        log (LogTotal (length (content st))) st
    | Rejected err => log (ErrFetching err) st
    end in
  set_isLoading false st.

(** [handleScroll], given [window.scrollY], [window.innerHeight] and
    [document.body.scrollHeight]. *)
Definition handleScroll (scrollTop viewportHeight fullHeight : float)
    (st : State) : State :=
  if isLoading st || Js.is_null (nextTag st) then st
  else
    let scrolledRatio := ((scrollTop + viewportHeight) / fullHeight)%float in
    if (0.5 <=? scrolledRatio)%float then loadContent (log LogScroll st)
    else st.

(** The callback of the [IntersectionObserver]; an entry is represented
    by its [isIntersecting] field. *)
Definition observerCallback (entries : list bool) (st : State) : State :=
  let visible := default false (head entries) in
  if visible && negb (isLoading st) && negb (Js.is_null (nextTag st))
  then loadContent (log LogObserver st)
  else st.

(** What the event loop delivers to the component. *)
Inductive Event :=
| Mounted                                  (* [onMounted]: calls [loadContent] *)
| Scroll (scrollY innerHeight scrollHeight : float)
| Intersect (entries : list bool)
| Settled (r : Response).                  (* a pending request settles *)

(** One turn of the event loop; [None] when the event cannot occur (a
    promise settles only when a request is pending). *)
Definition step (st : State) (e : Event) : option State :=
  match e with
  | Mounted => Some (loadContent st)
  | Scroll y h full => Some (handleScroll y h full st)
  | Intersect entries => Some (observerCallback entries st)
  | Settled r =>
      match inFlight st with
      | 0 => None
      | S _ => Some (loadContent_resume r (settle st))
      end
  end.

Fixpoint run (st : State) (es : list Event) : option State :=
  match es with
  | [] => Some st
  | e :: es =>
      match step st e with
      | Some st' => run st' es
      | None => None
      end
  end.

(** The scroll and the sentinel events. *)
Definition is_trigger (e : Event) : bool :=
  match e with
  | Scroll _ _ _ | Intersect _ => true
  | Mounted | Settled _ => false
  end.

(** The bodies of the resolved responses among the events, in order. *)
Fixpoint bodies (es : list Event) : list (list ContentItem) :=
  match es with
  | [] => []
  | Settled (Resolved data _) :: es => Js.or_empty data :: bodies es
  | _ :: es => bodies es
  end.

(** The bodies that are not empty. *)
Definition nonempty_bodies (es : list Event) : list (list ContentItem) :=
  filter (λ b : list ContentItem, 0 < length b) (bodies es).

(** The request that [loadContent] sends when the cursor is [tag]. *)
Definition request_for (tag : option string) : Request :=
  {| url := endpoint; params := build_params tag |}.

(** What a call that is not the settling of a request may do to the
    state [st]: nothing but write to the console, or raise the busy flag
    and send one request. *)
Definition quiet (st st' : State) : Prop :=
  isLoading st' = isLoading st ∧ requests st' = requests st
  ∧ inFlight st' = inFlight st.

Definition sends (st st' : State) : Prop :=
  isLoading st = false ∧ Js.is_empty_string (nextTag st) = false
  ∧ isLoading st' = true
  ∧ requests st' = requests st ++ [request_for (nextTag st)]
  ∧ inFlight st' = S (inFlight st).

(** The busy flag is up exactly when one request is pending, and no
    more than one ever is. *)
Definition flag_guards (st : State) : Prop :=
  inFlight st = if isLoading st then 1 else 0.

(** Sample values to run the model on. *)
Definition item (t : string) : ContentItem :=
  {| title := t; description := "about " +:+ t; medias := None |}.

Definition page1 : list ContentItem :=
  item <$> ["a"; "b"; "c"; "d"; "e"; "f"; "g"; "h"].

(** The feed after the first page has arrived with cursor [c1]. *)
Definition first_page_loaded : list Event :=
  [Mounted; Settled (Resolved (Some page1) (Some "c1"))].

(** The feed after a second, empty page has arrived, although the server
    sent a cursor with it. *)
Definition exhausted : list Event :=
  first_page_loaded
  ++ [Scroll 600 400 1000; Settled (Resolved (Some []) (Some "c2"))].

Definition page2 : list ContentItem := item <$> ["i"; "j"; "k"].

(** Two pages, then a failed request, then an empty last page. *)
Definition two_pages : list Event :=
  first_page_loaded
  ++ [Scroll 600 400 1000; Intersect [true];
      Settled (Resolved (Some page2) (Some "c2"));
      Intersect [true]; Settled (Rejected "Network Error");
      Scroll 900 400 1000; Settled (Resolved None None)].

(** The state that a run from [initial] ends in ([initial] itself when
    the run cannot happen). *)
Definition state_after (es : list Event) : State :=
  default initial (run initial es).

End Feed.

(** ** GpsTracker.vue *)

Module Gps.

(** The functions of the platform's [Math] object that [getDistance]
    calls, and the exponentiation operator.  The language leaves their
    results implementation-approximated, so the model takes them as an
    interface and every property holds for each implementation. *)
Class JsMath := {
  Math_sin : float → float;
  Math_cos : float → float;
  Math_atan2 : float → float → float;
  Math_sqrt : float → float;
  Math_pow : float → float → float   (* [x ** y] *)
}.

(** [Math.PI], the binary64 value nearest to pi. *)
Definition Math_PI : float := 0x1.921fb54442d18p+1%float.

Record Coordinate := {
  lat : float;
  lng : float;
  timestamp : float;
  isManual : bool
}.

(** The fields of a [GeolocationPosition] that the component reads. *)
Record Position := {
  latitude : float;
  longitude : float
}.

(** *** The Leaflet map, as far as the component drives it *)

Definition LatLng : Type := float * float.

Inductive Icon :=
| DefaultIcon
| DivIcon (htmlContent className : string).   (* [createIcon(htmlContent, className)] *)

Inductive Layer :=
| Polyline (latlngs : list LatLng)
| Marker (pos : LatLng) (icon : Icon).

(** A layer is known by the stamp Leaflet gives it. *)
Record LeafletMap := {
  layers : gmap nat Layer;
  nextStamp : nat;
  center : LatLng;
  zoom : float
}.

Definition addTo (l : Layer) (m : LeafletMap) : nat * LeafletMap :=
  (nextStamp m,
   {| layers := <[nextStamp m := l]> (layers m);
      nextStamp := S (nextStamp m);
      center := center m; zoom := zoom m |}).

Definition removeLayer (id : nat) (m : LeafletMap) : LeafletMap :=
  {| layers := delete id (layers m); nextStamp := nextStamp m;
     center := center m; zoom := zoom m |}.

Definition setLatLngs (id : nat) (pts : list LatLng) (m : LeafletMap)
    : LeafletMap :=
  {| layers := alter (λ _, Polyline pts) id (layers m);
     nextStamp := nextStamp m; center := center m; zoom := zoom m |}.

Definition setView (c : LatLng) (z : float) (m : LeafletMap) : LeafletMap :=
  {| layers := layers m; nextStamp := nextStamp m; center := c; zoom := z |}.

(** *** The state of the component *)

Record State := {
  recordedPath : list Coordinate;
  isRecording : bool;
  message : string;
  map : option LeafletMap;
  pathLayer : option nat;
  watchId : option nat;
  startMarker : option nat;
  endMarker : option nat;
  manualMarkers : list nat
}.

Definition set_recordedPath (p : list Coordinate) (st : State) : State :=
  {| recordedPath := p; isRecording := isRecording st;
     message := message st; map := map st; pathLayer := pathLayer st;
     watchId := watchId st; startMarker := startMarker st;
     endMarker := endMarker st; manualMarkers := manualMarkers st |}.

Definition set_isRecording (b : bool) (st : State) : State :=
  {| recordedPath := recordedPath st; isRecording := b;
     message := message st; map := map st; pathLayer := pathLayer st;
     watchId := watchId st; startMarker := startMarker st;
     endMarker := endMarker st; manualMarkers := manualMarkers st |}.

Definition set_message (s : string) (st : State) : State :=
  {| recordedPath := recordedPath st; isRecording := isRecording st;
     message := s; map := map st; pathLayer := pathLayer st;
     watchId := watchId st; startMarker := startMarker st;
     endMarker := endMarker st; manualMarkers := manualMarkers st |}.

Definition set_map (m : option LeafletMap) (st : State) : State :=
  {| recordedPath := recordedPath st; isRecording := isRecording st;
     message := message st; map := m; pathLayer := pathLayer st;
     watchId := watchId st; startMarker := startMarker st;
     endMarker := endMarker st; manualMarkers := manualMarkers st |}.

Definition set_pathLayer (l : option nat) (st : State) : State :=
  {| recordedPath := recordedPath st; isRecording := isRecording st;
     message := message st; map := map st; pathLayer := l;
     watchId := watchId st; startMarker := startMarker st;
     endMarker := endMarker st; manualMarkers := manualMarkers st |}.

Definition set_watchId (w : option nat) (st : State) : State :=
  {| recordedPath := recordedPath st; isRecording := isRecording st;
     message := message st; map := map st; pathLayer := pathLayer st;
     watchId := w; startMarker := startMarker st;
     endMarker := endMarker st; manualMarkers := manualMarkers st |}.

(** [startMarker = null; endMarker = null; manualMarkers = []]. *)
Definition clear_markers (st : State) : State :=
  {| recordedPath := recordedPath st; isRecording := isRecording st;
     message := message st; map := map st; pathLayer := pathLayer st;
     watchId := watchId st; startMarker := None;
     endMarker := None; manualMarkers := [] |}.

(** The state of a component that has mounted on the map [m].  The
    status message that [onMounted] sets and its position query, which
    moves the view and adds a marker to the map, are left out: [m] stands
    for the map as they leave it. *)
Definition mounted (m : LeafletMap) : State :=
  {| recordedPath := []; isRecording := false; message := "";
     map := Some m; pathLayer := None; watchId := None;
     startMarker := None; endMarker := None; manualMarkers := [] |}.

(** *** Utility functions *)

Section WithMath.

Context {M : JsMath}.

(** [getDistance]: the distance between two coordinates in metres
    (Haversine formula). *)
Definition getDistance (c1 c2 : Coordinate) : float :=
  (let R := 6371e3 in
   let phi1 := lat c1 * Math_PI / 180 in
   let phi2 := lat c2 * Math_PI / 180 in
   let dphi := (lat c2 - lat c1) * Math_PI / 180 in
   let dlambda := (lng c2 - lng c1) * Math_PI / 180 in
   let a := Math_pow (Math_sin (dphi / 2)) 2
            + Math_cos phi1 * Math_cos phi2
              * Math_pow (Math_sin (dlambda / 2)) 2 in
   let c := 2 * Math_atan2 (Math_sqrt a) (Math_sqrt (1 - a)) in
   R * c)%float.

End WithMath.

(** [L.marker(pos, { icon }).addTo(map)]; the component does not keep
    the marker it creates. *)
Definition addMarker (pos : LatLng) (icon : Icon) (m : LeafletMap)
    : LeafletMap :=
  snd (addTo (Marker pos icon) m).

(** [updateMapPath(isFinal)]. *)
Definition updateMapPath (isFinal : bool) (st : State) : State :=
  match map st with
  | None => st
  | Some m =>
      let latlngs := (λ c, (lat c, lng c)) <$> recordedPath st in
      (* Update path layer *)
      let '(m, pl) :=
        match pathLayer st with
        | Some id => (setLatLngs id latlngs m, Some id)
        | None =>
            if 0 <? length latlngs then
              let '(id, m) := addTo (Polyline latlngs) m in (m, Some id)
            else (m, None)
        end in
      (* Set map view to the last recorded point *)
      let m :=
        match last latlngs with
        | Some p => setView p (if zoom m <? 14 then 14 else zoom m)%float m
        | None => m
        end in
      (* Remove old markers *)
      let m := from_option (λ id, removeLayer id m) m (startMarker st) in
      let m := from_option (λ id, removeLayer id m) m (endMarker st) in
      let m := foldl (λ m id, removeLayer id m) m (manualMarkers st) in
      let st := clear_markers (set_pathLayer pl st) in
      let m :=
        match head (recordedPath st), last (recordedPath st) with
        | Some start, Some end_ =>
            let m := addMarker (lat start, lng start)
                       (DivIcon "S" "start-marker") m in
            let m :=
              if 1 <? length latlngs then
                addMarker (lat end_, lng end_)
                  (DivIcon "E" (if isFinal then "end-marker-final"
                                else "end-marker-active")) m
              else m in
            foldl (λ m c,
                     if isManual c then
                       addMarker (lat c, lng c)
                         (DivIcon "+" "manual-marker") m
                     else m)
                  m (recordedPath st)
        | _, _ => m
        end in
      set_map (Some m) st
  end.

(** What [dropMarker] leaves pending. *)
Inductive Pending :=
| NoQuery
| CurrentPosition.   (* [getCurrentPosition], answered by [dropMarker_position] *)

(** The coordinate that [recordCoordinate] builds from a position. *)
Definition sample_of (pos : Position) (isManual : bool) (now : float)
    : Coordinate :=
  {| lat := latitude pos; lng := longitude pos;
     timestamp := now; isManual := isManual |}.

Section WithMath.

Context {M : JsMath}.

(** [recordCoordinate(pos, isManual)]; [now] is what [Date.now()]
    returns during the call. *)
Definition recordCoordinate (pos : Position) (isManual : bool)
    (now : float) (st : State) : State :=
  let newCoord := sample_of pos isManual now in
  let lastCoord := last (recordedPath st) in
  let skip :=
    match lastCoord with
    | Some lastCoord =>
        if negb isManual then
          let timeDiff :=
            ((timestamp newCoord - timestamp lastCoord) / 1000)%float in
          let distanceMeters := getDistance lastCoord newCoord in
          let speed := (distanceMeters / timeDiff)%float in
          (50 <? speed)%float && (50 <? distanceMeters)%float
        else false
    | None => false
    end in
  if skip then set_message "Skipped GPS outlier" st
  else
    let st := set_recordedPath (recordedPath st ++ [newCoord]) st in
    let st := set_message (if isManual then "Manual marker dropped"
                           else "Path recorded") st in
    updateMapPath false st.

(** [startTracking]; [geo] is [None] when [navigator.geolocation] is
    missing and otherwise holds the identifier that [watchPosition]
    returns. *)
Definition startTracking (geo : option nat) (st : State) : State :=
  if isRecording st then st
  else
    (* Clear previous state *)
    let st := set_recordedPath [] st in
    let st :=
      match pathLayer st with
      | Some id =>
          set_pathLayer None (set_map (removeLayer id <$> map st) st)
      | None => st
      end in
    match geo with
    | Some id =>
        let st := set_watchId (Some id) st in
        let st := set_isRecording true st in
        set_message "Tracking started. Recording path..." st
    | None => set_message "Geolocation not supported by this browser." st
    end.

(** [stopAndScreenshot], up to the [nextTick] that takes the
    screenshot. *)
Definition stopAndScreenshot (st : State) : State :=
  if negb (isRecording st) then set_message "Tracking not running" st
  else
    let st := set_watchId None st in
    let st := set_isRecording false st in
    let st := set_message "Tracking stopped. Preparing screenshot..." st in
    updateMapPath true st.

(** [dropMarker]. *)
Definition dropMarker (now : float) (st : State) : State * Pending :=
  if negb (isRecording st) then
    (set_message "Start tracking first to drop a marker." st, NoQuery)
  else
    match last (recordedPath st) with
    | Some l =>
        (recordCoordinate {| latitude := lat l; longitude := lng l |}
           true now st, NoQuery)
    | None => (st, CurrentPosition)
    end.

(** The success callback of the query that [dropMarker] issues. *)
Definition dropMarker_position (pos : Position) (now : float)
    (st : State) : State :=
  recordCoordinate pos true now st.

(** The success callback of [watchPosition]. *)
Definition watch_position (pos : Position) (now : float)
    (st : State) : State :=
  recordCoordinate pos false now st.

End WithMath.

(** The rule of the specification for a sample that comes [dt] seconds
    and [d] metres after the previous one: it is an outlier when the
    speed [d / dt] is above 50 m/s and [d] is above 50 m. *)
Definition is_outlier (dt d : float) : bool :=
  ((50 <? d / dt) && (50 <? d))%float.

(** A stand-in for the platform's [Math], to run the recorder on samples
    a chosen distance apart: [atan2] answers [a] whatever it is asked, so
    that [getDistance] returns [6371e3 * (2 * a)]. *)
Definition fixed_angle (a : float) : JsMath :=
  {| Math_sin := λ _, 0%float;
     Math_cos := λ _, 1%float;
     Math_atan2 := λ _ _, a;
     Math_sqrt := PrimFloat.sqrt;
     Math_pow := λ x _, (x * x)%float |}.

(** The angle for which [getDistance] returns 100 m, and the one for
    which it returns the distance nearest above 1000 m: no product
    [6371e3 * c] is 1000 itself. *)
Definition angle_100m : float := 0x1.075655d0163ebp-17%float.
Definition angle_1000m : float := 0x1.492beb441bce6p-14%float.

(** Sample values to run the model on. *)
Definition empty_map : LeafletMap :=
  {| layers := ∅; nextStamp := 0;
     center := (3.125, 101.6875)%float; zoom := 13%float |}.

Definition here : Position :=
  {| latitude := 3.125%float; longitude := 101.6875%float |}.

Definition there : Position :=
  {| latitude := 3.1328125%float; longitude := 101.6875%float |}.

(** A recording with one sample, taken at time [1700000000000]. *)
Definition one_sample : State :=
  watch_position (M := fixed_angle angle_100m) here 1700000000000%float
    (startTracking (Some 7) (mounted empty_map)).

(** A finished session: two samples and a manual marker, then stop. *)
Definition finished_session : State :=
  stopAndScreenshot
    (fst (dropMarker (M := fixed_angle angle_100m) 1700000020000%float
       (watch_position (M := fixed_angle angle_100m) there
          1700000010000%float one_sample))).

(** The term [a] of [getDistance]: the square of half the chord between
    the two points on the unit sphere. *)
Definition haversine_term {M : JsMath} (c1 c2 : Coordinate) : float :=
  (let phi1 := lat c1 * Math_PI / 180 in
   let phi2 := lat c2 * Math_PI / 180 in
   let dphi := (lat c2 - lat c1) * Math_PI / 180 in
   let dlambda := (lng c2 - lng c1) * Math_PI / 180 in
   Math_pow (Math_sin (dphi / 2)) 2
   + Math_cos phi1 * Math_cos phi2
     * Math_pow (Math_sin (dlambda / 2)) 2)%float.

(** What the language lays down for [Math.sqrt] and [Math.atan2]
    whatever the implementation: the square root of a number below zero
    is NaN, and [atan2] of a NaN is NaN. *)
Definition nan_rules (M : JsMath) : Prop :=
  (∀ x, (x <? 0)%float = true → Math_sqrt x = nan)
  ∧ (∀ y, Math_atan2 y nan = nan).

(** A [Math] for the two samples below: [sin] and [cos] answer what an
    IEEE 754 mathematical library answers at the arguments [getDistance]
    passes for them (0 and 1 elsewhere), [sqrt] is the IEEE 754 square
    root, [x ** 2] is [x * x], and [atan2], given no NaN, answers 0. *)
Definition polar_math : JsMath :=
  {| Math_sin := λ x,
       if (x =? 0x1.86f4291ecf2f3p+0)%float then 0x1.ff833f9da45f7p-1%float
       else if (x =? 0x1.921fb54442d18p+0)%float then 1%float
       else 0%float;
     Math_cos := λ x,
       if (abs x =? 0x1.86f4291ecf2f3p+0)%float
       then 0x1.65547c4694e32p-5%float
       else 1%float;
     Math_atan2 := λ y x, if is_nan y || is_nan x then nan else 0%float;
     Math_sqrt := λ x, if (x <? 0)%float then nan else PrimFloat.sqrt x;
     Math_pow := λ x _, (x * x)%float |}.

(** Two positions at opposite ends of the globe. *)
Definition far_south : Position :=
  {| latitude := (-87.5)%float; longitude := (-179)%float |}.

Definition far_north : Position :=
  {| latitude := 87.5%float; longitude := 1%float |}.

(** A recording with one sample, taken far south at time
    [1700000000000]. *)
Definition one_sample_far_south : State :=
  watch_position (M := polar_math) far_south 1700000000000%float
    (startTracking (Some 7) (mounted empty_map)).

End Gps.

(** ** InfiniteScroller.vue: the template and the lifecycle hooks *)

Module FeedView.

Import Feed.

(** [<div v-if="nextTag !== null" ref="sentinelRef" class="sentinel">]. *)
Definition sentinel_rendered (st : State) : bool :=
  negb (Js.is_null (nextTag st)).

(** The paragraph of the status indicator that is rendered. *)
Inductive Status :=
| Spinner      (* [v-if="isLoading"]: Loading more content... *)
| EndOfLine    (* [v-else-if="!nextTag && content.length > 0"] *)
| NoStatus.

Definition status (st : State) : Status :=
  if isLoading st then Spinner
  else if negb (Js.truthy (nextTag st)) && (0 <? length (content st))
       then EndOfLine
       else NoStatus.

(** Whether the event meets the condition of its handler that does not
    depend on the state: the scroll ratio has reached one half, the first
    entry of the observer intersects. *)
Definition fires (e : Event) : bool :=
  match e with
  | Scroll scrollTop viewportHeight fullHeight =>
      (0.5 <=? (scrollTop + viewportHeight) / fullHeight)%float
  | Intersect entries => default false (head entries)
  | Mounted | Settled _ => false
  end.

(** The cursor that a resolved response asks for. *)
Definition cursor_of (data : option (list ContentItem))
    (tagHeader : option string) : option string :=
  match Js.or_empty data with
  | [] => None
  | _ :: _ => Js.or_null tagHeader
  end.

(** The cursor after the events, from the cursor [t] before them: the one
    asked for by the last resolved response, if there is any. *)
Fixpoint cursor_after (t : option string) (es : list Event)
    : option string :=
  match es with
  | [] => t
  | Settled (Resolved data tagHeader) :: es =>
      cursor_after (cursor_of data tagHeader) es
  | _ :: es => cursor_after t es
  end.

End FeedView.

Module FeedLifecycle.

(** The resources the component holds outside its reactive state: the
    variable [observer], the observers that are connected with the element
    each one observes, and the scroll listener on [window].  Observers and
    elements are known by a number. *)
Record Resources := {
  observer : option nat;
  connected : gmap nat nat;
  nextObserver : nat;          (* the next [new IntersectionObserver] *)
  scrollListener : bool
}.

Definition unmounted_resources : Resources :=
  {| observer := None; connected := ∅; nextObserver := 0;
     scrollListener := false |}.

(** [observer.disconnect()]. *)
Definition disconnect (o : nat) (r : Resources) : Resources :=
  {| observer := observer r; connected := delete o (connected r);
     nextObserver := nextObserver r; scrollListener := scrollListener r |}.

(** The callback of [watch(sentinelRef, ...)], given the new value of
    [sentinelRef]. *)
Definition watch_sentinelRef (el : option nat) (r : Resources) : Resources :=
  match el with
  | None => r
  | Some el =>
      let r := from_option (λ o, disconnect o r) r (observer r) in
      {| observer := Some (nextObserver r);
         connected := <[nextObserver r := el]> (connected r);
         nextObserver := S (nextObserver r);
         scrollListener := scrollListener r |}
  end.

(** [onMounted], as far as the resources go: the scroll listener. *)
Definition onMounted (r : Resources) : Resources :=
  {| observer := observer r; connected := connected r;
     nextObserver := nextObserver r; scrollListener := true |}.

(** [onUnmounted]. *)
Definition onUnmounted (r : Resources) : Resources :=
  let r := from_option (λ o, disconnect o r) r (observer r) in
  {| observer := observer r; connected := connected r;
     nextObserver := nextObserver r; scrollListener := false |}.

Inductive Hook :=
| HMounted
| HSentinel (el : option nat)   (* [sentinelRef] changes *)
| HUnmounted.

Definition hook (r : Resources) (h : Hook) : Resources :=
  match h with
  | HMounted => onMounted r
  | HSentinel el => watch_sentinelRef el r
  | HUnmounted => onUnmounted r
  end.

(** Only the observer held in [observer] may be connected. *)
Definition single_observer (r : Resources) : Prop :=
  ∀ o, is_Some (connected r !! o) → observer r = Some o.

End FeedLifecycle.

(** ** GpsTracker.vue: sessions and the screenshot *)

Module GpsSession.

Import Gps.

(** What the user and the platform deliver to the component. *)
Inductive Event :=
| Start (geo : option nat)                  (* the START button *)
| Stop                                      (* the STOP button *)
| Drop (now : float)                        (* the + button *)
| WatchFix (pos : Position) (now : float)   (* a position of the watch *)
| MarkerFix (pos : Position) (now : float). (* the answer to [dropMarker]'s query *)

Definition step {M : JsMath} (st : State) (e : Event) : State :=
  match e with
  | Start geo => startTracking geo st
  | Stop => stopAndScreenshot st
  | Drop now => fst (dropMarker now st)
  | WatchFix pos now => watch_position pos now st
  | MarkerFix pos now => dropMarker_position pos now st
  end.

Definition run {M : JsMath} (st : State) (es : list Event) : State :=
  foldl step st es.

Definition is_start (e : Event) : bool :=
  match e with
  | Start _ => true
  | _ => false
  end.

(** [recordedPath.value.map(c => [c.lat, c.lng])]. *)
Definition coords (path : list Coordinate) : list LatLng :=
  (λ c, (lat c, lng c)) <$> path.

(** Every layer of the map has a stamp below the next one to be given. *)
Definition fresh_stamps (m : LeafletMap) : Prop :=
  ∀ id, is_Some (layers m !! id) → id < nextStamp m.

(** [m'] is [m] with layers added: the view and the layers of [m] are
    as they were. *)
Definition grows (m m' : LeafletMap) : Prop :=
  center m' = center m ∧ zoom m' = zoom m
  ∧ nextStamp m ≤ nextStamp m'
  ∧ (∀ id, id < nextStamp m → layers m' !! id = layers m !! id)
  ∧ (fresh_stamps m → fresh_stamps m').

(** The three steps of [updateMapPath] on the map: the path layer, the
    view, the markers. *)
Definition path_layer_step (latlngs : list LatLng) (pl : option nat)
    (m : LeafletMap) : LeafletMap * option nat :=
  match pl with
  | Some id => (setLatLngs id latlngs m, Some id)
  | None =>
      if 0 <? length latlngs then
        (snd (addTo (Polyline latlngs) m), Some (fst (addTo (Polyline latlngs) m)))
      else (m, None)
  end.

Definition view_step (latlngs : list LatLng) (m : LeafletMap) : LeafletMap :=
  match last latlngs with
  | Some p => setView p (if zoom m <? 14 then 14 else zoom m)%float m
  | None => m
  end.

Definition manual_markers (path : list Coordinate) (m : LeafletMap)
    : LeafletMap :=
  foldl (λ m c,
           if isManual c then
             addMarker (lat c, lng c) (DivIcon "+" "manual-marker") m
           else m)
        m path.

Definition draw_markers (isFinal : bool) (path : list Coordinate)
    (m : LeafletMap) : LeafletMap :=
  match head path, last path with
  | Some start, Some end_ =>
      let m := addMarker (lat start, lng start)
                 (DivIcon "S" "start-marker") m in
      let m :=
        if 1 <? length (coords path) then
          addMarker (lat end_, lng end_)
            (DivIcon "E" (if isFinal then "end-marker-final"
                          else "end-marker-active")) m
        else m in
      manual_markers path m
  | _, _ => m
  end.

(** The removal of the markers that the component holds. *)
Definition remove_held (st : State) (m : LeafletMap) : LeafletMap :=
  let m := from_option (λ id, removeLayer id m) m (startMarker st) in
  let m := from_option (λ id, removeLayer id m) m (endMarker st) in
  foldl (λ m id, removeLayer id m) m (manualMarkers st).

(** The variables [startMarker], [endMarker] and [manualMarkers] hold no
    marker. *)
Definition no_marker_held (st : State) : Prop :=
  startMarker st = None ∧ endMarker st = None ∧ manualMarkers st = [].

(** The path layer on the map draws the recorded path; without a path
    layer, nothing is recorded. *)
Definition path_drawn (st : State) : Prop :=
  ∃ m, map st = Some m ∧ fresh_stamps m
       ∧ match pathLayer st with
         | Some id => layers m !! id = Some (Polyline (coords (recordedPath st)))
         | None => recordedPath st = []
         end.

(** The path layer, if the component holds one, is a polyline on the
    map. *)
Definition path_layer_on_map (st : State) : Prop :=
  ∃ m, map st = Some m ∧ fresh_stamps m
       ∧ ∀ id, pathLayer st = Some id →
           ∃ pts, layers m !! id = Some (Polyline pts).

(** Every marker on the map of [st] is on the map of [st']. *)
Definition markers_kept (st st' : State) : Prop :=
  ∀ m id p icon,
    map st = Some m → layers m !! id = Some (Marker p icon) →
    ∃ m', map st' = Some m' ∧ layers m' !! id = Some (Marker p icon).

(** The only polyline on the map is the path layer that the component
    holds. *)
Definition only_path_polyline (st : State) : Prop :=
  ∀ m id pts,
    map st = Some m → layers m !! id = Some (Polyline pts) →
    pathLayer st = Some id.

(** A session on which a manual marker is dropped after two samples. *)
Definition marked_session : list Event :=
  [Start (Some 7);
   WatchFix here 1700000000000; WatchFix there 1700000010000;
   Drop 1700000020000; Stop].

End GpsSession.

Module Screenshot.

Import Gps.

(** The interaction handlers of the map, each enabled or disabled. *)
Record Handlers := {
  dragging : bool;
  touchZoom : bool;
  doubleClickZoom : bool;
  scrollWheelZoom : bool;
  boxZoom : bool;
  keyboard : bool
}.

Definition all_handlers (b : bool) : Handlers :=
  {| dragging := b; touchZoom := b; doubleClickZoom := b;
     scrollWheelZoom := b; boxZoom := b; keyboard := b |}.

(** What the screenshot touches outside the state of the component. *)
Record Page := {
  handlers : Handlers;
  leafletFreeze : bool;       (* the class [leaflet-freeze] on the map element *)
  leafletPosCleared : bool;   (* [map._leaflet_pos] has been set to [null] *)
  downloads : list float;     (* the files [path_${Date.now()}.png] saved *)
  errors : list string        (* [console.error("Screenshot error:", err)] *)
}.

Definition set_handlers (h : Handlers) (pg : Page) : Page :=
  {| handlers := h; leafletFreeze := leafletFreeze pg;
     leafletPosCleared := leafletPosCleared pg;
     downloads := downloads pg; errors := errors pg |}.

Definition set_leafletFreeze (b : bool) (pg : Page) : Page :=
  {| handlers := handlers pg; leafletFreeze := b;
     leafletPosCleared := leafletPosCleared pg;
     downloads := downloads pg; errors := errors pg |}.

(** A call returns or throws; the page is as the call left it. *)
Inductive Completion :=
| Returns (pg : Page)
| Throws (pg : Page).

(** [freezeLeaflet(mapEl)]; the assignment to [map._leaflet_pos] throws
    when [map] is [null]. *)
Definition freezeLeaflet (st : State) (pg : Page) : Completion :=
  let pg := set_leafletFreeze true pg in
  match map st with
  | None => Throws pg
  | Some _ =>
      Returns {| handlers := handlers pg; leafletFreeze := leafletFreeze pg;
                 leafletPosCleared := true;
                 downloads := downloads pg; errors := errors pg |}
  end.

(** [freezeMap]. *)
Definition freezeMap (st : State) (pg : Page) : Page :=
  match map st with
  | None => pg
  | Some _ => set_handlers (all_handlers false) pg
  end.

(** [restoreLeaflet(mapEl)]. *)
Definition restoreLeaflet (pg : Page) : Page :=
  set_leafletFreeze false pg.

(** [unfreezeMap]. *)
Definition unfreezeMap (st : State) (pg : Page) : Page :=
  match map st with
  | None => pg
  | Some _ => set_handlers (all_handlers true) pg
  end.

(** How [html2canvas] and the callback of its [then] go. *)
Inductive Capture :=
| Saved                          (* the canvas is rendered and downloaded *)
| EncodeThrows (err : string)    (* rendered, then [canvas.toDataURL] throws *)
| RenderRejects (err : string).  (* the promise of [html2canvas] is rejected *)

(** The callback given to [nextTick] by [stopAndScreenshot], up to its
    [await]; [mapEl] tells whether the element [map-container] is found.
    The result tells whether the callback goes on to the capture. *)
Definition screenshot_begin (mapEl : bool) (st : State) (pg : Page)
    : State * Page * bool :=
  if negb mapEl then
    (set_message "Screenshot failed: Map element not found." st, pg, false)
  else
    let pg := freezeMap st pg in
    match freezeLeaflet st pg with
    | Throws pg => (st, pg, false)
    | Returns pg => (st, pg, true)
    end.

(** The [catch] callback. *)
Definition capture_failed (err : string) (st : State) (pg : Page)
    : State * Page :=
  let pg := {| handlers := handlers pg; leafletFreeze := leafletFreeze pg;
               leafletPosCleared := leafletPosCleared pg;
               downloads := downloads pg; errors := errors pg ++ [err] |} in
  let pg := restoreLeaflet pg in
  let pg := unfreezeMap st pg in
  (set_message "Screenshot failed during capture." st, pg).

(** The rest of the callback, once [html2canvas] has settled; [now] is
    what [Date.now()] returns when the file is named. *)
Definition screenshot_end (c : Capture) (now : float) (st : State)
    (pg : Page) : State * Page :=
  match c with
  | Saved =>
      let pg := restoreLeaflet pg in
      let pg := unfreezeMap st pg in
      let pg := {| handlers := handlers pg; leafletFreeze := leafletFreeze pg;
                   leafletPosCleared := leafletPosCleared pg;
                   downloads := downloads pg ++ [now];
                   errors := errors pg |} in
      (set_message "Tracking stopped. Screenshot saved." st, pg)
  | EncodeThrows err =>
      let pg := restoreLeaflet pg in
      let pg := unfreezeMap st pg in
      capture_failed err st pg
  | RenderRejects err => capture_failed err st pg
  end.

End Screenshot.

(** ** Shared tactics and list facts *)

(** Closes a goal between closed terms by running both sides. *)
Ltac evaluate := vm_compute; reflexivity.

Lemma app_singleton_neq {A} (l : list A) x : l ++ [x] ≠ l.
Proof.
  intros H. apply (f_equal length) in H.
  rewrite length_app in H. simpl in H. lia.
Qed.

(** ** Properties of the feed loader *)

Module FeedFacts.

Import Feed FeedView.

(** *** What each handler leaves alone *)

Lemma loadContent_busy st :
  isLoading st = true → loadContent st = st.
Proof. intros H. unfold loadContent. by rewrite H. Qed.

Lemma handleScroll_busy y h full st :
  isLoading st = true → handleScroll y h full st = st.
Proof. intros H. unfold handleScroll. by rewrite H. Qed.

Lemma observerCallback_busy entries st :
  isLoading st = true → observerCallback entries st = st.
Proof.
  intros H. unfold observerCallback. rewrite H.
  by destruct (default false (head entries)).
Qed.

Lemma handleScroll_null y h full st :
  nextTag st = None → handleScroll y h full st = st.
Proof.
  intros H. unfold handleScroll. rewrite H. simpl.
  by rewrite orb_true_r.
Qed.

Lemma observerCallback_null entries st :
  nextTag st = None → observerCallback entries st = st.
Proof.
  intros H. unfold observerCallback. rewrite H. simpl.
  by rewrite andb_false_r.
Qed.

Lemma trigger_null e st :
  is_trigger e = true → nextTag st = None → step st e = Some st.
Proof.
  destruct e as [|y h full|entries|r]; simpl; intros Ht Hn; try done.
  - by rewrite handleScroll_null.
  - by rewrite observerCallback_null.
Qed.

(** A call of [loadContent] returns at once or sends a request. *)
Lemma loadContent_cases st :
  loadContent st = st
  ∨ (isLoading st = false
     ∧ loadContent st =
       send {| url := endpoint; params := build_params (nextTag st) |}
         (log LogFetching (set_isLoading true st))).
Proof.
  unfold loadContent.
  destruct (isLoading st || Js.is_empty_string (nextTag st)) eqn:E.
  - by left.
  - right. apply orb_false_elim in E as [E _]. done.
Qed.

Lemma content_loadContent st : content (loadContent st) = content st.
Proof. by destruct (loadContent_cases st) as [->|[_ ->]]. Qed.

Lemma nextTag_loadContent st : nextTag (loadContent st) = nextTag st.
Proof. by destruct (loadContent_cases st) as [->|[_ ->]]. Qed.

Lemma content_handleScroll y h full st :
  content (handleScroll y h full st) = content st.
Proof.
  unfold handleScroll.
  destruct (isLoading st || Js.is_null (nextTag st)); [done|].
  destruct (0.5 <=? _)%float; [|done].
  by rewrite content_loadContent.
Qed.

Lemma nextTag_handleScroll y h full st :
  nextTag (handleScroll y h full st) = nextTag st.
Proof.
  unfold handleScroll.
  destruct (isLoading st || Js.is_null (nextTag st)); [done|].
  destruct (0.5 <=? _)%float; [|done].
  by rewrite nextTag_loadContent.
Qed.

Lemma content_observerCallback entries st :
  content (observerCallback entries st) = content st.
Proof.
  unfold observerCallback.
  destruct (_ && _ && _); [|done].
  by rewrite content_loadContent.
Qed.

Lemma nextTag_observerCallback entries st :
  nextTag (observerCallback entries st) = nextTag st.
Proof.
  unfold observerCallback.
  destruct (_ && _ && _); [|done].
  by rewrite nextTag_loadContent.
Qed.

Lemma content_resume_resolved data hdr st :
  content (loadContent_resume (Resolved data hdr) st)
  = content st ++ Js.or_empty data.
Proof.
  unfold loadContent_resume.
  destruct (Js.or_empty data) as [|x l]; simpl; [|done].
  by rewrite app_nil_r.
Qed.

Lemma content_resume_rejected err st :
  content (loadContent_resume (Rejected err) st) = content st.
Proof. done. Qed.

(** *** The cursor is never the empty string *)

Lemma or_null_not_empty v : Js.or_null v ≠ Some "".
Proof.
  unfold Js.or_null, Js.truthy.
  destruct v as [s|]; [|done].
  destruct (String.eqb s "") eqn:E; simpl; [done|].
  intros [= ->]. by rewrite String.eqb_refl in E.
Qed.

Lemma nextTag_resume r st :
  nextTag st ≠ Some "" → nextTag (loadContent_resume r st) ≠ Some "".
Proof.
  destruct r as [data hdr|err]; simpl; [|done].
  intros _. destruct (0 <? length (Js.or_empty data)); simpl; [|done].
  apply or_null_not_empty.
Qed.

Lemma nextTag_step st e st' :
  step st e = Some st' → nextTag st ≠ Some "" → nextTag st' ≠ Some "".
Proof.
  destruct e as [|y h full|entries|r]; simpl.
  - intros [= <-]. by rewrite nextTag_loadContent.
  - intros [= <-]. by rewrite nextTag_handleScroll.
  - intros [= <-]. by rewrite nextTag_observerCallback.
  - destruct (inFlight st); [done|]. intros [= <-] H.
    by apply nextTag_resume.
Qed.

Lemma nextTag_run es : ∀ st st',
  run st es = Some st' → nextTag st ≠ Some "" → nextTag st' ≠ Some "".
Proof.
  induction es as [|e es IH]; simpl; intros st st'.
  - by intros [= <-].
  - destruct (step st e) as [st1|] eqn:E; [|done].
    intros Hrun Hn. eapply IH; [done|]. by eapply nextTag_step.
Qed.

(** *** Requests and the busy flag *)

Lemma loadContent_shape st :
  (loadContent st = st ∧ (isLoading st = true ∨ nextTag st = Some ""))
  ∨ sends st (loadContent st).
Proof.
  unfold loadContent, sends, request_for.
  destruct (isLoading st) eqn:E; simpl; [left; auto|].
  destruct (nextTag st) as [s|] eqn:En; simpl; [|by right].
  destruct (String.eqb s "") eqn:Es; simpl; [|by right].
  left. split; [done|right]. by apply String.eqb_eq in Es as ->.
Qed.

Lemma loadContent_after_log c st :
  quiet st (loadContent (log c st)) ∨ sends st (loadContent (log c st)).
Proof.
  destruct (loadContent_shape (log c st)) as [[-> _]|H]; [by left|by right].
Qed.

Lemma call_shape st e st' :
  (∀ r, e ≠ Settled r) → step st e = Some st' →
  content st' = content st ∧ nextTag st' = nextTag st
  ∧ (quiet st st' ∨ sends st st').
Proof.
  intros Hne.
  destruct e as [|y h full|entries|r]; simpl; [| | |by destruct (Hne r)];
    intros [= <-].
  - rewrite content_loadContent, nextTag_loadContent.
    split; [done|split; [done|]].
    destruct (loadContent_shape st) as [[-> _]|H]; [by left|by right].
  - rewrite content_handleScroll, nextTag_handleScroll.
    split; [done|split; [done|]]. unfold handleScroll.
    destruct (isLoading st || Js.is_null (nextTag st)); [by left|].
    destruct (0.5 <=? _)%float; [|by left].
    apply loadContent_after_log.
  - rewrite content_observerCallback, nextTag_observerCallback.
    split; [done|split; [done|]]. unfold observerCallback.
    destruct (_ && _ && _); [|by left].
    apply loadContent_after_log.
Qed.

Lemma settled_shape st r st' :
  step st (Settled r) = Some st' →
  0 < inFlight st ∧ isLoading st' = false
  ∧ requests st' = requests st ∧ inFlight st' = pred (inFlight st).
Proof.
  simpl. destruct (inFlight st) as [|n] eqn:E; [done|].
  intros [= <-]. split; [lia|].
  destruct r as [data hdr|err]; simpl;
    [destruct (0 <? length (Js.or_empty data)); simpl|];
    by rewrite ?E.
Qed.

Lemma flag_guards_step st e st' :
  step st e = Some st' → flag_guards st → flag_guards st'.
Proof.
  unfold flag_guards. intros Hs Hinv.
  destruct e as [|y h full|entries|r].
  4: { apply settled_shape in Hs as (Hpos & -> & _ & ->).
       destruct (isLoading st); lia. }
  all: apply call_shape in Hs as (_ & _ & [(-> & _ & ->)|(E & _ & -> & _ & ->)]);
    try done; by rewrite Hinv, E.
Qed.

Lemma flag_guards_run es : ∀ st st',
  run st es = Some st' → flag_guards st → flag_guards st'.
Proof.
  induction es as [|e es IH]; simpl; intros st st'.
  - by intros [= <-].
  - destruct (step st e) as [st1|] eqn:E; [|done].
    intros Hrun Hinv. eapply IH; [done|]. by eapply flag_guards_step.
Qed.

(** *** The displayed list *)

Lemma content_step st e st' :
  step st e = Some st' → content st' = content st ++ concat (bodies [e]).
Proof.
  destruct e as [|y h full|entries|r]; simpl.
  - intros [= <-]. by rewrite content_loadContent, app_nil_r.
  - intros [= <-]. by rewrite content_handleScroll, app_nil_r.
  - intros [= <-]. by rewrite content_observerCallback, app_nil_r.
  - destruct (inFlight st); [done|]. intros [= <-].
    destruct r as [data hdr|err].
    + by rewrite content_resume_resolved; simpl; rewrite app_nil_r.
    + by rewrite content_resume_rejected; simpl; rewrite app_nil_r.
Qed.

Lemma bodies_cons e es : bodies (e :: es) = bodies [e] ++ bodies es.
Proof. destruct e as [| | |[data hdr|err]]; done. Qed.

Lemma content_run es : ∀ st st',
  run st es = Some st' → content st' = content st ++ concat (bodies es).
Proof.
  induction es as [|e es IH]; simpl run; intros st st'.
  - intros [= <-]. simpl. by rewrite app_nil_r.
  - destruct (step st e) as [st1|] eqn:E; [|done].
    intros Hrun. rewrite (IH _ _ Hrun), (content_step _ _ _ E).
    by rewrite (bodies_cons e es), concat_app, app_assoc.
Qed.

Lemma concat_nonempty {A} (l : list (list A)) :
  concat (filter (λ b : list A, 0 < length b) l) = concat l.
Proof.
  induction l as [|b l IH]; [done|].
  rewrite filter_cons. destruct (decide (0 < length b)) as [H|H]; simpl.
  - by rewrite IH.
  - destruct b; simpl in *; [done|lia].
Qed.

Lemma build_params_lookup t :
  Js.is_empty_string t = false →
  build_params t !! "refresh" = Some (PNum 1)
  ∧ build_params t !! "type" = Some (PNum 0)
  ∧ build_params t !! "auth" = Some (PNum 0)
  ∧ build_params t !! "per_page" = Some (PNum 8)
  ∧ build_params t !! "tag" = PStr <$> t.
Proof.
  destruct t as [s|]; simpl; [|done].
  intros ->. simpl.
  rewrite lookup_insert_eq, !lookup_insert_ne by done. done.
Qed.

(** *** What a trigger does *)

Lemma trigger_effect st e st' :
  is_trigger e = true → step st e = Some st' →
  content st' = content st ∧ nextTag st' = nextTag st
  ∧ if fires e && negb (isLoading st) && Js.truthy (nextTag st)
    then sends st st' else quiet st st'.
Proof.
  intros Ht Hs.
  assert (Hne : ∀ r, e ≠ Settled r) by (by destruct e).
  destruct (call_shape st e st' Hne Hs) as (Hc & Hn & _).
  split; [done|]. split; [done|]. clear Hc Hn Hne.
  destruct e as [|y h full|entries|r]; try done; simpl in Hs |- *;
    injection Hs as <-.
  - unfold handleScroll.
    destruct (isLoading st) eqn:El; simpl;
      [by rewrite andb_false_r|].
    rewrite andb_true_r.
    destruct (nextTag st) as [s|] eqn:En; simpl;
      [|by rewrite andb_false_r].
    destruct (0.5 <=? _)%float; simpl; [|done].
    destruct (loadContent_shape (log LogScroll st))
      as [[-> [H|H]]|H]; simpl in *.
    + congruence.
    + rewrite En in H. injection H as ->. done.
    + destruct H as (_ & He & Hl' & Hr & Hi). simpl in *.
      rewrite En in He. simpl in He. rewrite He. simpl.
      unfold sends. rewrite En at 1. simpl. done.
  - unfold observerCallback.
    destruct (default false (head entries)); simpl; [|done].
    destruct (isLoading st) eqn:El; simpl; [done|].
    destruct (nextTag st) as [s|] eqn:En; simpl; [|done].
    destruct (loadContent_shape (log LogObserver st))
      as [[-> [H|H]]|H]; simpl in *.
    + congruence.
    + rewrite En in H. injection H as ->. done.
    + destruct H as (_ & He & Hl' & Hr & Hi). simpl in *.
      rewrite En in He. simpl in He. rewrite He. simpl.
      unfold sends. rewrite En at 1. simpl. done.
Qed.

Lemma nextTag_resume_resolved data hdr st :
  nextTag (loadContent_resume (Resolved data hdr) st) = cursor_of data hdr.
Proof.
  unfold loadContent_resume, cursor_of.
  by destruct (Js.or_empty data).
Qed.

(** *** The properties of the specification *)

(** C1. Once the cursor is [None], however many scroll and sentinel
    events follow, none of them sends a request: each leaves the whole
    state, the list of requests sent included, as it was.  This holds in
    particular from the state in which a response has just set the
    cursor to [None]. *)
Theorem no_fetch_once_cursor_is_null st es :
  nextTag st = None → forallb is_trigger es = true → run st es = Some st.
Proof.
  intros Hn. induction es as [|e es IH]; simpl; [done|].
  intros [He Hes]%andb_prop. rewrite trigger_null by done. auto.
Qed.

Lemma no_fetch_once_cursor_is_null_witness :
  nextTag (state_after exhausted) = None
  ∧ run (state_after exhausted)
      [Scroll 900 400 1000; Intersect [true]; Scroll 1000 400 1000]
    = Some (state_after exhausted).
Proof.
  assert (Hn : nextTag (state_after exhausted) = None) by evaluate.
  split; [exact Hn|].
  apply (no_fetch_once_cursor_is_null (state_after exhausted) _ Hn).
  evaluate.
Defined.

(** C2. After any sequence of events, the displayed list is the
    concatenation, in arrival order, of the bodies of the responses that
    were not empty. *)
Theorem displayed_list_is_concatenation es st :
  run initial es = Some st → content st = concat (nonempty_bodies es).
Proof.
  intros H. unfold nonempty_bodies.
  by rewrite concat_nonempty, (content_run _ _ _ H).
Qed.

Lemma displayed_list_is_concatenation_witness :
  run initial two_pages = Some (state_after two_pages)
  ∧ content (state_after two_pages) = page1 ++ page2.
Proof.
  assert (Hrun : run initial two_pages = Some (state_after two_pages))
    by evaluate.
  split; [exact Hrun|].
  rewrite (displayed_list_is_concatenation two_pages
             (state_after two_pages) Hrun).
  evaluate.
Defined.

(** C3, as amended. After a resolved response the cursor is the value of
    the header when the body is not empty and the header is present and
    not the empty string, and [None] in every other case: an empty body,
    an absent header, an empty header. *)
Theorem cursor_after_response data hdr st :
  nextTag (loadContent_resume (Resolved data hdr) st) =
    match Js.or_empty data, hdr with
    | _ :: _, Some h => if decide (h = "") then None else Some h
    | _, _ => None
    end.
Proof.
  unfold loadContent_resume.
  destruct (Js.or_empty data) as [|x l]; simpl; [done|].
  destruct hdr as [h|]; [|done].
  unfold Js.or_null, Js.truthy.
  destruct (String.eqb_spec h "") as [->|Hne]; simpl; [done|].
  by rewrite decide_False.
Qed.

(** C3, as stated, fails: a body that is not empty together with a header
    that is present and empty leaves the cursor [None], not the value of
    the header. *)
Lemma cursor_after_response_empty_header :
  nextTag (loadContent_resume (Resolved (Some [item "a"]) (Some ""))
             (loadContent initial)) = None
  ∧ nextTag (loadContent_resume (Resolved (Some [item "a"]) (Some ""))
               (loadContent initial)) ≠ Some "".
Proof. split; [evaluate|vm_compute; discriminate]. Qed.

(** C6. When the pending request is rejected, the error is written to
    the console, the busy flag is cleared, no request is sent, and the
    displayed list and the cursor stay as they were. *)
Theorem transport_failure_keeps_state st err st' :
  step st (Settled (Rejected err)) = Some st' →
  console st' = console st ++ [ErrFetching err]
  ∧ isLoading st' = false
  ∧ requests st' = requests st
  ∧ content st' = content st
  ∧ nextTag st' = nextTag st.
Proof.
  simpl. destruct (inFlight st); [done|]. by intros [= <-].
Qed.

Lemma transport_failure_keeps_state_witness :
  step (state_after (first_page_loaded ++ [Intersect [true]]))
    (Settled (Rejected "Network Error"))
    = Some (state_after (first_page_loaded ++ [Intersect [true];
                           Settled (Rejected "Network Error")]))
  ∧ isLoading (state_after (first_page_loaded ++ [Intersect [true]])) = true
  ∧ isLoading (state_after (first_page_loaded ++ [Intersect [true];
                              Settled (Rejected "Network Error")])) = false
  ∧ content (state_after (first_page_loaded ++ [Intersect [true];
                            Settled (Rejected "Network Error")])) = page1
  ∧ nextTag (state_after (first_page_loaded ++ [Intersect [true];
                            Settled (Rejected "Network Error")])) = Some "c1".
Proof.
  assert (Hs : step (state_after (first_page_loaded ++ [Intersect [true]]))
                 (Settled (Rejected "Network Error"))
               = Some (state_after (first_page_loaded ++ [Intersect [true];
                                      Settled (Rejected "Network Error")])))
    by evaluate.
  split; [exact Hs|]. split; [evaluate|].
  destruct (transport_failure_keeps_state _ _ _ Hs)
    as (_ & Hl & _ & Hc & Hn).
  split; [exact Hl|]. split; [rewrite Hc|rewrite Hn]; evaluate.
Defined.

(** C7. In every state the component can reach, at most one request is
    pending, and the busy flag is up exactly when one is.  While it is
    up, a direct call of [loadContent], a scroll event and a sentinel
    event all leave the state as it is.  A step that sends a request
    starts with the flag down and ends with it up; a step that takes the
    flag down is the settling of the pending request. *)
Theorem at_most_one_fetch_in_flight es st :
  run initial es = Some st →
  inFlight st ≤ 1
  ∧ (isLoading st = true ↔ inFlight st = 1)
  ∧ (isLoading st = true →
       loadContent st = st
       ∧ (∀ y h full, handleScroll y h full st = st)
       ∧ (∀ entries, observerCallback entries st = st))
  ∧ (∀ e st', step st e = Some st' →
       (requests st' ≠ requests st →
          isLoading st = false ∧ isLoading st' = true)
       ∧ (isLoading st = true → isLoading st' = false →
            ∃ r, e = Settled r)).
Proof.
  intros Hrun.
  assert (Hinv : flag_guards st)
    by (eapply flag_guards_run; [exact Hrun|reflexivity]).
  unfold flag_guards in Hinv.
  split; [destruct (isLoading st); lia|].
  split; [destruct (isLoading st); split; (done || lia)|].
  split.
  { intros Hb. split; [by apply loadContent_busy|].
    split; intros; [by apply handleScroll_busy
                   |by apply observerCallback_busy]. }
  intros e st' Hs.
  destruct e as [|y h full|entries|r].
  4: { apply settled_shape in Hs as (_ & _ & Hr & _).
       split; [done|]. intros _ _. by exists r. }
  all: apply call_shape in Hs
         as (_ & _ & [(Hl & Hr & _)|(Hl & _ & Hl' & _)]);
    try done;
    (split; [done|]); intros Hb Hb'; congruence.
Qed.

Lemma at_most_one_fetch_in_flight_witness :
  run initial (first_page_loaded ++ [Scroll 600 400 1000])
    = Some (state_after (first_page_loaded ++ [Scroll 600 400 1000]))
  ∧ inFlight (state_after (first_page_loaded ++ [Scroll 600 400 1000])) = 1
  ∧ run (state_after (first_page_loaded ++ [Scroll 600 400 1000]))
      [Mounted; Scroll 900 400 1000; Intersect [true]]
    = Some (state_after (first_page_loaded ++ [Scroll 600 400 1000])).
Proof.
  assert (Hrun : run initial (first_page_loaded ++ [Scroll 600 400 1000])
            = Some (state_after
                      (first_page_loaded ++ [Scroll 600 400 1000])))
    by evaluate.
  split; [exact Hrun|].
  destruct (at_most_one_fetch_in_flight _ _ Hrun)
    as (_ & Hiff & Hbusy & _).
  assert (Hb : isLoading (state_after
                 (first_page_loaded ++ [Scroll 600 400 1000])) = true)
    by evaluate.
  split; [by apply Hiff|].
  destruct (Hbusy Hb) as (Hcall & Hscroll & Hobs).
  cbn [run step]. rewrite Hcall, Hscroll, Hobs. reflexivity.
Defined.

(** C8. Every request carries [refresh=1], [type=0], [auth=0] and
    [per_page=8]; it carries no [tag] when the cursor is [None] and the
    cursor as [tag] otherwise.  Such requests are sent: a call of
    [loadContent] with the flag down and a cursor that is not the empty
    string appends one.  After the mount and a first response of eight
    items with cursor [c1], the requests sent are the one of the mount,
    without [tag], and, at the next scroll or sentinel event that fires,
    one with [tag=c1]. *)
Theorem request_parameters :
  (∀ st e st' r,
     step st e = Some st' → requests st' = requests st ++ [r] →
     params r !! "refresh" = Some (PNum 1)
     ∧ params r !! "type" = Some (PNum 0)
     ∧ params r !! "auth" = Some (PNum 0)
     ∧ params r !! "per_page" = Some (PNum 8)
     ∧ params r !! "tag" = PStr <$> nextTag st)
  ∧ (∀ st, isLoading st = false → nextTag st ≠ Some "" →
       ∃ r, requests (loadContent st) = requests st ++ [r]
            ∧ url r = endpoint
            ∧ params r !! "refresh" = Some (PNum 1)
            ∧ params r !! "type" = Some (PNum 0)
            ∧ params r !! "auth" = Some (PNum 0)
            ∧ params r !! "per_page" = Some (PNum 8)
            ∧ params r !! "tag" = PStr <$> nextTag st)
  ∧ (∀ items e,
       length items = 8 → is_trigger e = true → fires e = true →
       ∃ st1 st2 r0 r,
         run initial [Mounted; Settled (Resolved (Some items) (Some "c1"))]
           = Some st1
         ∧ step st1 e = Some st2
         ∧ requests st1 = [r0] ∧ requests st2 = [r0; r]
         ∧ params r0 !! "tag" = None
         ∧ params r !! "refresh" = Some (PNum 1)
         ∧ params r !! "type" = Some (PNum 0)
         ∧ params r !! "auth" = Some (PNum 0)
         ∧ params r !! "per_page" = Some (PNum 8)
         ∧ params r !! "tag" = Some (PStr "c1")).
Proof.
  split; [|split].
  - intros st e st' r Hs Hr.
    assert (Hsends : sends st st').
    { destruct e as [|y h full|entries|r0].
      4: { apply settled_shape in Hs as (_ & _ & Hr' & _).
           rewrite Hr' in Hr. symmetry in Hr.
           by apply app_singleton_neq in Hr. }
      all: apply call_shape in Hs as (_ & _ & [(_ & Hr' & _)|H]);
        try done; rewrite Hr' in Hr; symmetry in Hr;
        by apply app_singleton_neq in Hr. }
    destruct Hsends as (_ & Hne & _ & Hr' & _).
    rewrite Hr' in Hr. apply app_inv_head in Hr. injection Hr as <-.
    by apply build_params_lookup.
  - intros st Hl Hne.
    destruct (loadContent_shape st) as [[_ [H|H]]|(_ & He & _ & Hr & _)];
      [congruence|congruence|].
    exists (request_for (nextTag st)). split; [done|]. split; [done|].
    by apply build_params_lookup.
  - intros items e Hlen He Hf.
    destruct items as [|x items]; [done|].
    set (st1 := loadContent_resume (Resolved (Some (x :: items)) (Some "c1"))
                  (settle (loadContent initial))).
    assert (Hrun : run initial [Mounted;
                     Settled (Resolved (Some (x :: items)) (Some "c1"))]
                   = Some st1) by done.
    destruct (step st1 e) as [st2|] eqn:Hs; [|by destruct e].
    destruct (trigger_effect _ _ _ He Hs) as (_ & _ & H).
    rewrite Hf in H. change (sends st1 st2) in H.
    destruct H as (_ & _ & _ & Hr & _).
    exists st1, st2, (request_for None), (request_for (Some "c1")).
    split; [done|]. split; [done|]. split; [done|]. split; [done|].
    split; [done|].
    by destruct (build_params_lookup (Some "c1") eq_refl)
      as (? & ? & ? & ? & ?).
Qed.

Lemma request_parameters_witness :
  length page1 = 8
  ∧ ∃ r0 r,
      requests (state_after (first_page_loaded ++ [Intersect [true]]))
        = [r0; r]
      ∧ params r0 !! "tag" = None
      ∧ params r !! "per_page" = Some (PNum 8)
      ∧ params r !! "tag" = Some (PStr "c1").
Proof.
  assert (Hlen : length page1 = 8) by evaluate.
  split; [exact Hlen|].
  destruct (proj2 (proj2 request_parameters) page1 (Intersect [true])
              Hlen eq_refl eq_refl)
    as (st1 & st2 & r0 & r & Hrun & Hs & _ & Hr & H0 & _ & _ & _ & Hp & Ht).
  exists r0, r. split; [|done].
  assert (H1 : run initial first_page_loaded
               = Some (state_after first_page_loaded)) by evaluate.
  unfold first_page_loaded in H1 at 1. rewrite Hrun in H1.
  injection H1 as ->.
  assert (H2 : step (state_after first_page_loaded) (Intersect [true])
               = Some (state_after (first_page_loaded ++ [Intersect [true]])))
    by evaluate.
  rewrite Hs in H2. injection H2 as ->. exact Hr.
Defined.

(** C10. In every state the component can reach the cursor is not the
    empty string, so the test of the cursor against the empty string in
    [loadContent] is false and [loadContent] returns early only when the
    busy flag is up.  With the flag down and the cursor [None], a direct
    call of [loadContent] sends a request, while the scroll and the
    sentinel events send none: only their tests against [null] stop a
    fetch after the end of the feed. *)
Theorem cursor_never_empty_string es st :
  run initial es = Some st →
  nextTag st ≠ Some ""
  ∧ Js.is_empty_string (nextTag st) = false
  ∧ (loadContent st = st ↔ isLoading st = true)
  ∧ (isLoading st = false → nextTag st = None →
       sends st (loadContent st)
       ∧ ∀ e, is_trigger e = true → step st e = Some st).
Proof.
  intros Hrun.
  assert (Hne : nextTag st ≠ Some "")
    by (eapply nextTag_run; [exact Hrun|done]).
  split; [done|]. split.
  { destruct (nextTag st) as [s|]; [|done]. simpl.
    destruct (String.eqb_spec s ""); congruence. }
  split.
  - split; [|apply loadContent_busy].
    destruct (loadContent_shape st) as [[_ [H|H]]|(Hl & _ & Hl' & _)];
      [done|done|].
    intros Heq. rewrite Heq in Hl'. congruence.
  - intros Hl Hn. split.
    + destruct (loadContent_shape st) as [[_ [H|H]]|H];
        [congruence|congruence|done].
    + intros e He. by apply trigger_null.
Qed.

Lemma cursor_never_empty_string_witness :
  run initial exhausted = Some (state_after exhausted)
  ∧ nextTag (state_after exhausted) = None
  ∧ length (requests (loadContent (state_after exhausted)))
    = S (length (requests (state_after exhausted)))
  ∧ step (state_after exhausted) (Intersect [true])
    = Some (state_after exhausted).
Proof.
  assert (Hrun : run initial exhausted = Some (state_after exhausted))
    by evaluate.
  assert (Hn : nextTag (state_after exhausted) = None) by evaluate.
  assert (Hl : isLoading (state_after exhausted) = false) by evaluate.
  split; [exact Hrun|]. split; [exact Hn|].
  destruct (cursor_never_empty_string _ _ Hrun) as (_ & _ & _ & H).
  destruct (H Hl Hn) as ((_ & _ & _ & Hr & _) & Ht).
  split; [rewrite Hr, length_app; simpl; lia|].
  by apply Ht.
Defined.

(** *** More on the triggers, the requests and the cursor *)

Lemma triggers_null_run st es :
  nextTag st = None → forallb is_trigger es = true → run st es = Some st.
Proof.
  intros Hn. induction es as [|e es IH]; simpl; [done|].
  intros [He Hes]%andb_prop. rewrite trigger_null by done. auto.
Qed.

Lemma nextTag_run_cursor es : ∀ st st',
  run st es = Some st' → nextTag st' = cursor_after (nextTag st) es.
Proof.
  induction es as [|e es IH]; simpl run; intros st st'.
  - by intros [= <-].
  - destruct (step st e) as [st1|] eqn:E; [|done].
    intros Hrun. rewrite (IH _ _ Hrun). clear IH Hrun.
    destruct e as [|y h full|entries|[data hdr|err]]; simpl in E |- *.
    + injection E as <-. by rewrite nextTag_loadContent.
    + injection E as <-. by rewrite nextTag_handleScroll.
    + injection E as <-. by rewrite nextTag_observerCallback.
    + destruct (inFlight st); [done|]. injection E as <-.
      by rewrite nextTag_resume_resolved.
    + destruct (inFlight st); [done|]. by injection E as <-.
Qed.

(** The first request is the one for the first page, and until it is sent
    the cursor is [None] and nothing is pending. *)
Lemma first_request_step st e st' :
  step st e = Some st' →
  (requests st = [] ∧ nextTag st = None ∧ inFlight st = 0)
  ∨ (∃ rs, requests st = request_for None :: rs) →
  (requests st' = [] ∧ nextTag st' = None ∧ inFlight st' = 0)
  ∨ (∃ rs, requests st' = request_for None :: rs).
Proof.
  intros Hs Hinv. destruct e as [|y h full|entries|r].
  4: { destruct Hinv as [(_ & _ & H0)|[rs Hrs]].
       - apply settled_shape in Hs as (Hpos & _). lia.
       - apply settled_shape in Hs as (_ & _ & -> & _). right. eauto. }
  all: apply call_shape in Hs
         as (_ & Hn & [(_ & Hr & Hi)|(_ & _ & _ & Hr & _)]);
    try done; rewrite Hr;
    [rewrite Hn, Hi; destruct Hinv as [?|[rs ->]]; [by left|right; eauto]
    |destruct Hinv as [(-> & -> & _)|[rs ->]]; right; simpl; eauto].
Qed.

Lemma first_request_run es : ∀ st st',
  run st es = Some st' →
  (requests st = [] ∧ nextTag st = None ∧ inFlight st = 0)
  ∨ (∃ rs, requests st = request_for None :: rs) →
  (requests st' = [] ∧ nextTag st' = None ∧ inFlight st' = 0)
  ∨ (∃ rs, requests st' = request_for None :: rs).
Proof.
  induction es as [|e es IH]; simpl run; intros st st'.
  - by intros [= <-].
  - destruct (step st e) as [st1|] eqn:E; [|done].
    intros Hrun Hinv. eapply IH; [done|]. by eapply first_request_step.
Qed.

Lemma status_end_of_line st :
  status st = EndOfLine →
  isLoading st = false ∧ Js.truthy (nextTag st) = false
  ∧ content st ≠ [].
Proof.
  unfold status. destruct (isLoading st); [done|].
  destruct (Js.truthy (nextTag st)); simpl; [done|].
  destruct (content st); simpl; done.
Qed.

(** *** Further properties of the feed loader *)

(** X1. When the request for the first page fails, the feed is stuck:
    whatever scroll and sentinel events follow, the list stays empty, the
    one request sent stays the only one, and neither the spinner, the
    sentinel nor the end-of-line message is rendered. *)
Theorem first_page_failure_is_final err es :
  forallb is_trigger es = true →
  ∃ st, run initial (Mounted :: Settled (Rejected err) :: es) = Some st
        ∧ content st = [] ∧ requests st = [request_for None]
        ∧ isLoading st = false ∧ sentinel_rendered st = false
        ∧ status st = NoStatus.
Proof.
  intros Hes.
  exists (loadContent_resume (Rejected err) (settle (loadContent initial))).
  split; [|done].
  change (run (loadContent_resume (Rejected err) (settle (loadContent initial)))
            es = Some (loadContent_resume (Rejected err)
                         (settle (loadContent initial)))).
  by apply triggers_null_run.
Qed.

Lemma first_page_failure_is_final_witness :
  ∃ st, run initial [Mounted; Settled (Rejected "timeout");
                     Scroll 900 400 1000; Intersect [true]] = Some st
        ∧ content st = [] ∧ requests st = [request_for None]
        ∧ isLoading st = false ∧ sentinel_rendered st = false
        ∧ status st = NoStatus.
Proof.
  apply (first_page_failure_is_final "timeout"
           [Scroll 900 400 1000; Intersect [true]]).
  reflexivity.
Defined.

(** X2. A request that fails is not repeated by itself, but the next
    scroll or sentinel event that fires sends it again with the same
    cursor; the list and the cursor are as before the failure. *)
Theorem failed_request_is_sent_again st err e st' :
  0 < inFlight st → Js.truthy (nextTag st) = true →
  is_trigger e = true → fires e = true →
  run st [Settled (Rejected err); e] = Some st' →
  requests st' = requests st ++ [request_for (nextTag st)]
  ∧ nextTag st' = nextTag st ∧ content st' = content st.
Proof.
  intros Hpos Ht He Hf. simpl run.
  destruct (inFlight st) as [|n] eqn:En; [lia|].
  destruct (step _ e) as [st1|] eqn:E; [|done]. intros [= <-].
  destruct (trigger_effect _ _ _ He E) as (Hc & Hn & H).
  simpl in Hc, Hn, H. rewrite Hf, Ht in H. simpl in H.
  destruct H as (_ & _ & _ & Hr & _). simpl in Hr. done.
Qed.

Lemma failed_request_is_sent_again_witness :
  0 < inFlight (state_after (first_page_loaded ++ [Intersect [true]]))
  ∧ ∃ r, requests (state_after (first_page_loaded
                      ++ [Intersect [true]; Settled (Rejected "timeout");
                          Scroll 600 400 1000]))
         = requests (state_after (first_page_loaded ++ [Intersect [true]]))
           ++ [r]
         ∧ params r !! "tag" = Some (PStr "c1").
Proof.
  assert (Hpos : 0 < inFlight (state_after
                   (first_page_loaded ++ [Intersect [true]])))
    by (vm_compute; lia).
  split; [exact Hpos|].
  exists (request_for (Some "c1")). split; [|evaluate].
  assert (Hrun : run (state_after (first_page_loaded ++ [Intersect [true]]))
                   [Settled (Rejected "timeout"); Scroll 600 400 1000]
                 = Some (state_after (first_page_loaded
                      ++ [Intersect [true]; Settled (Rejected "timeout");
                          Scroll 600 400 1000]))) by evaluate.
  destruct (failed_request_is_sent_again _ "timeout" (Scroll 600 400 1000) _
              Hpos ltac:(evaluate) eq_refl ltac:(evaluate) Hrun)
    as (Hr & _).
  rewrite Hr. evaluate.
Defined.

(** X4. Whatever happens, the first request sent is the one for the
    first page: to the endpoint, with no [tag]. *)
Theorem first_request_has_no_tag es st r rs :
  run initial es = Some st → requests st = r :: rs →
  url r = endpoint ∧ params r !! "tag" = None
  ∧ params r !! "per_page" = Some (PNum 8).
Proof.
  intros Hrun Hr.
  destruct (first_request_run es initial st Hrun) as [(H & _)|[rs' H]].
  - left. done.
  - congruence.
  - rewrite Hr in H. by injection H as -> _.
Qed.

Lemma first_request_has_no_tag_witness :
  run initial two_pages = Some (state_after two_pages)
  ∧ ∃ r rs, requests (state_after two_pages) = r :: rs
            ∧ length rs = 3 ∧ params r !! "tag" = None.
Proof.
  assert (Hrun : run initial two_pages = Some (state_after two_pages))
    by evaluate.
  split; [exact Hrun|].
  destruct (requests (state_after two_pages)) as [|r rs] eqn:E;
    [vm_compute in E; discriminate E|].
  exists r, rs. split; [reflexivity|]. split.
  - vm_compute in E. injection E as _ <-. reflexivity.
  - apply (first_request_has_no_tag _ _ r rs Hrun E).
Defined.

(** X5. While the end-of-line message is shown, no scroll or sentinel
    event sends a request, also when the cursor is the empty string: the
    list, the cursor and the message stay. *)
Theorem end_of_line_is_final st es st' :
  status st = EndOfLine → forallb is_trigger es = true →
  run st es = Some st' →
  requests st' = requests st ∧ content st' = content st
  ∧ nextTag st' = nextTag st ∧ status st' = EndOfLine.
Proof.
  revert st. induction es as [|e es IH]; simpl run; intros st Hst.
  - by intros _ [= <-].
  - simpl. intros [He Hes]%andb_prop.
    destruct (step st e) as [st1|] eqn:E; [|done]. intros Hrun.
    destruct (status_end_of_line st Hst) as (Hl & Ht & Hc).
    destruct (trigger_effect _ _ _ He E) as (Hc1 & Hn1 & H).
    rewrite Ht, andb_false_r in H. destruct H as (Hl1 & Hr1 & _).
    assert (Hst1 : status st1 = EndOfLine).
    { unfold status in *. by rewrite Hl1, Hn1, Hc1. }
    destruct (IH st1 Hst1 Hes Hrun) as (-> & -> & -> & ->).
    by rewrite Hr1, Hc1, Hn1.
Qed.

Lemma end_of_line_is_final_witness :
  status (state_after exhausted) = EndOfLine
  ∧ run (state_after exhausted) [Scroll 900 400 1000; Intersect [true]]
    = Some (state_after (exhausted
              ++ [Scroll 900 400 1000; Intersect [true]]))
  ∧ length (requests (state_after (exhausted
              ++ [Scroll 900 400 1000; Intersect [true]]))) = 2.
Proof.
  assert (Hst : status (state_after exhausted) = EndOfLine) by evaluate.
  assert (Hrun : run (state_after exhausted)
                   [Scroll 900 400 1000; Intersect [true]]
                 = Some (state_after (exhausted
                      ++ [Scroll 900 400 1000; Intersect [true]])))
    by evaluate.
  split; [exact Hst|]. split; [exact Hrun|].
  destruct (end_of_line_is_final _ [Scroll 900 400 1000; Intersect [true]]
              _ Hst eq_refl Hrun) as (-> & _).
  evaluate.
Defined.

(** X6. In every state the component can reach with the busy flag down
    and a list that is not empty, exactly one of the sentinel and the
    end-of-line message is rendered. *)
Theorem sentinel_or_end_of_line es st :
  run initial es = Some st → isLoading st = false → content st ≠ [] →
  (sentinel_rendered st = true ∧ status st = NoStatus)
  ∨ (sentinel_rendered st = false ∧ status st = EndOfLine).
Proof.
  intros Hrun Hl Hc.
  assert (Hne : nextTag st ≠ Some "")
    by (eapply nextTag_run; [exact Hrun|done]).
  unfold sentinel_rendered, status. rewrite Hl.
  destruct (nextTag st) as [s|]; simpl.
  - left. destruct (String.eqb_spec s ""); [congruence|done].
  - right. destruct (content st); done.
Qed.

Lemma sentinel_or_end_of_line_witness :
  (sentinel_rendered (state_after first_page_loaded) = true
   ∧ status (state_after first_page_loaded) = NoStatus)
  ∧ (sentinel_rendered (state_after exhausted) = false
     ∧ status (state_after exhausted) = EndOfLine).
Proof.
  split.
  - destruct (sentinel_or_end_of_line first_page_loaded
                (state_after first_page_loaded)
                ltac:(evaluate) ltac:(evaluate)
                ltac:(vm_compute; discriminate)) as [H|[H _]];
      [exact H|vm_compute in H; discriminate H].
  - destruct (sentinel_or_end_of_line exhausted (state_after exhausted)
                ltac:(evaluate) ltac:(evaluate)
                ltac:(vm_compute; discriminate)) as [[H _]|H];
      [vm_compute in H; discriminate H|exact H].
Defined.

(** X7. A scroll or sentinel event sends a request exactly when it fires
    (the scroll ratio has reached one half, the first entry of the observer
    intersects), the busy flag is down and the cursor is neither [None] nor
    the empty string; the request is then the one for the cursor.
    Otherwise nothing is sent and the flag stays.  The list and the cursor
    are untouched in both cases. *)
Theorem trigger_sends_exactly_when st e st' :
  is_trigger e = true → step st e = Some st' →
  (fires e && negb (isLoading st) && Js.truthy (nextTag st) = true →
     requests st' = requests st ++ [request_for (nextTag st)]
     ∧ isLoading st' = true ∧ inFlight st' = S (inFlight st))
  ∧ (fires e && negb (isLoading st) && Js.truthy (nextTag st) = false →
       requests st' = requests st
       ∧ isLoading st' = isLoading st ∧ inFlight st' = inFlight st)
  ∧ content st' = content st ∧ nextTag st' = nextTag st.
Proof.
  intros He Hs. destruct (trigger_effect _ _ _ He Hs) as (Hc & Hn & H).
  split; [|split; [|done]]; intros Hcond; rewrite Hcond in H.
  - by destruct H as (_ & _ & ? & ? & ?).
  - by destruct H as (? & ? & ?).
Qed.

Lemma trigger_sends_exactly_when_witness :
  (∃ r, requests (state_after (first_page_loaded ++ [Scroll 100 400 1000]))
        = requests (state_after first_page_loaded) ++ [r])
  ∧ requests (state_after (first_page_loaded ++ [Scroll 99 400 1000]))
    = requests (state_after first_page_loaded)
  ∧ requests (state_after (first_page_loaded ++ [Intersect [false; true]]))
    = requests (state_after first_page_loaded).
Proof.
  split; [|split].
  - eexists.
    apply (trigger_sends_exactly_when (state_after first_page_loaded)
             (Scroll 100 400 1000) _ eq_refl ltac:(evaluate)).
    evaluate.
  - apply (trigger_sends_exactly_when (state_after first_page_loaded)
             (Scroll 99 400 1000) _ eq_refl ltac:(evaluate)).
    evaluate.
  - apply (trigger_sends_exactly_when (state_after first_page_loaded)
             (Intersect [false; true]) _ eq_refl ltac:(evaluate)).
    evaluate.
Defined.

(** X9. After any events the cursor is the one asked for by the last
    resolved response: its header, if that is not empty and the body is
    not empty, and [None] otherwise.  Rejected requests, scroll events and
    sentinel events never change it. *)
Theorem cursor_follows_last_response es st :
  run initial es = Some st → nextTag st = cursor_after None es.
Proof. intros H. by rewrite (nextTag_run_cursor _ _ _ H). Qed.

Lemma cursor_follows_last_response_witness :
  run initial (first_page_loaded
               ++ [Scroll 600 400 1000;
                   Settled (Resolved (Some page2) (Some "c2"));
                   Intersect [true]; Settled (Rejected "timeout")])
  = Some (state_after (first_page_loaded
               ++ [Scroll 600 400 1000;
                   Settled (Resolved (Some page2) (Some "c2"));
                   Intersect [true]; Settled (Rejected "timeout")]))
  ∧ nextTag (state_after (first_page_loaded
               ++ [Scroll 600 400 1000;
                   Settled (Resolved (Some page2) (Some "c2"));
                   Intersect [true]; Settled (Rejected "timeout")]))
    = Some "c2".
Proof.
  assert (Hrun : run initial (first_page_loaded
               ++ [Scroll 600 400 1000;
                   Settled (Resolved (Some page2) (Some "c2"));
                   Intersect [true]; Settled (Rejected "timeout")])
  = Some (state_after (first_page_loaded
               ++ [Scroll 600 400 1000;
                   Settled (Resolved (Some page2) (Some "c2"));
                   Intersect [true]; Settled (Rejected "timeout")])))
    by evaluate.
  split; [exact Hrun|].
  rewrite (cursor_follows_last_response _ _ Hrun). evaluate.
Defined.

End FeedFacts.

(** ** Properties of the lifecycle hooks of the feed loader *)

Module LifecycleFacts.

Import FeedLifecycle.

Lemma single_observer_hook r h :
  single_observer r → single_observer (hook r h).
Proof.
  unfold single_observer. intros Hinv.
  destruct h as [|[el|]|]; simpl; [done| |done|].
  - intros o. destruct (observer r) as [o0|] eqn:Eo; simpl.
    + destruct (decide (nextObserver r = o)) as [->|Hne]; [done|].
      rewrite lookup_insert_ne by done.
      destruct (decide (o0 = o)) as [->|Hne'].
      * rewrite lookup_delete_eq. by intros [? ?].
      * rewrite lookup_delete_ne by done. intros H%Hinv. congruence.
    + destruct (decide (nextObserver r = o)) as [->|Hne]; [done|].
      rewrite lookup_insert_ne by done. intros H%Hinv. congruence.
  - intros o. destruct (observer r) as [o0|] eqn:Eo; simpl.
    + destruct (decide (o0 = o)) as [->|Hne'].
      * rewrite lookup_delete_eq. by intros [? ?].
      * rewrite lookup_delete_ne by done. intros H%Hinv. congruence.
    + rewrite Eo. intros H%Hinv. congruence.
Qed.

Lemma single_observer_hooks hs : ∀ r,
  single_observer r → single_observer (foldl hook r hs).
Proof.
  induction hs as [|h hs IH]; simpl; [done|].
  intros r Hr. apply IH. by apply single_observer_hook.
Qed.

Lemma onUnmounted_disconnects r :
  single_observer r → connected (onUnmounted r) = ∅.
Proof.
  intros Hinv. apply map_eq. intros o. rewrite lookup_empty.
  unfold onUnmounted.
  destruct (observer r) as [o0|] eqn:Eo; simpl.
  - destruct (decide (o0 = o)) as [->|Hne].
    + apply lookup_delete_eq.
    + rewrite lookup_delete_ne by done.
      destruct (connected r !! o) eqn:E; [|done].
      assert (H : observer r = Some o) by (apply Hinv; by rewrite E).
      congruence.
  - destruct (connected r !! o) eqn:E; [|done].
    assert (H : observer r = Some o) by (apply Hinv; by rewrite E).
    congruence.
Qed.

(** X8. Whatever the order in which the component is mounted, the
    sentinel changes and the component is unmounted, an observer that is
    connected is the one held in [observer], so at most one is connected;
    a new sentinel is observed by the observer held, and a sentinel that
    goes away disconnects nothing.  Right after the component is
    unmounted no observer is connected and the scroll listener is off. *)
Theorem observers_do_not_leak hs :
  single_observer (foldl hook unmounted_resources hs)
  ∧ (∀ o1 o2,
       is_Some (connected (foldl hook unmounted_resources hs) !! o1) →
       is_Some (connected (foldl hook unmounted_resources hs) !! o2) →
       o1 = o2)
  ∧ (∀ el, ∃ o,
       observer (hook (foldl hook unmounted_resources hs)
                   (HSentinel (Some el))) = Some o
       ∧ connected (hook (foldl hook unmounted_resources hs)
                      (HSentinel (Some el))) !! o = Some el)
  ∧ hook (foldl hook unmounted_resources hs) (HSentinel None)
    = foldl hook unmounted_resources hs
  ∧ connected (hook (foldl hook unmounted_resources hs) HUnmounted) = ∅
  ∧ scrollListener (hook (foldl hook unmounted_resources hs) HUnmounted)
    = false.
Proof.
  assert (Hinv : single_observer (foldl hook unmounted_resources hs)).
  { apply single_observer_hooks. intros o. simpl.
    rewrite lookup_empty. by intros [? ?]. }
  split; [exact Hinv|]. split.
  { intros o1 o2 H1%Hinv H2%Hinv. congruence. }
  split.
  { intros el. simpl. eexists. split; [reflexivity|].
    apply lookup_insert_eq. }
  split; [done|]. split; [|done].
  by apply onUnmounted_disconnects.
Qed.

Lemma observers_do_not_leak_witness :
  (∀ o, is_Some (connected
                   (foldl hook unmounted_resources
                      [HMounted; HSentinel (Some 5); HSentinel None;
                       HSentinel (Some 6)]) !! o) → o = 1)
  ∧ connected (foldl hook unmounted_resources
                 [HMounted; HSentinel (Some 5); HSentinel None;
                  HSentinel (Some 6)]) !! 1 = Some 6
  ∧ connected (foldl hook unmounted_resources
                 [HMounted; HSentinel (Some 5); HSentinel None;
                  HSentinel (Some 6); HUnmounted]) = ∅.
Proof.
  destruct (observers_do_not_leak
              [HMounted; HSentinel (Some 5); HSentinel None;
               HSentinel (Some 6)]) as (_ & Hone & _ & _ & Hun & _).
  split; [|split].
  - intros o Ho. apply (Hone o 1 Ho). vm_compute. eauto.
  - evaluate.
  - exact Hun.
Defined.

End LifecycleFacts.

(** ** Properties of the path recorder *)

Module GpsFacts.

Import Gps.

Lemma recordedPath_updateMapPath isFinal st :
  recordedPath (updateMapPath isFinal st) = recordedPath st.
Proof.
  unfold updateMapPath.
  destruct (map st) as [m|]; [|done].
  destruct (pathLayer st) as [id|]; [done|].
  by destruct (0 <? length _).
Qed.

Section WithMath.

Context {M : JsMath}.

(** A sample that passes the filter is appended. *)
Lemma recordCoordinate_cases pos isManual now st :
  (recordCoordinate pos isManual now st
     = set_message "Skipped GPS outlier" st
   ∧ isManual = false
   ∧ ∃ lastCoord, last (recordedPath st) = Some lastCoord
       ∧ is_outlier ((now - timestamp lastCoord) / 1000)%float
           (getDistance lastCoord (sample_of pos false now)) = true)
  ∨ (recordedPath (recordCoordinate pos isManual now st)
       = recordedPath st ++ [sample_of pos isManual now]
     ∧ (isManual = true
        ∨ last (recordedPath st) = None
        ∨ ∃ lastCoord, last (recordedPath st) = Some lastCoord
            ∧ is_outlier ((now - timestamp lastCoord) / 1000)%float
                (getDistance lastCoord (sample_of pos false now))
              = false)).
Proof.
  unfold recordCoordinate, is_outlier.
  destruct (last (recordedPath st)) as [lastCoord|] eqn:El.
  - destruct isManual; simpl.
    + right. rewrite recordedPath_updateMapPath. auto.
    + match goal with
      | |- context [if ?b then _ else _] => destruct b eqn:Eb
      end.
      * left. split; [done|]. split; [done|]. by exists lastCoord.
      * right. rewrite recordedPath_updateMapPath. split; [done|].
        right; right. by exists lastCoord.
  - right. rewrite recordedPath_updateMapPath. auto.
Qed.

End WithMath.

(** C4. The filter does not hold for every sample: when rounding puts
    the term [a] of [getDistance] above 1, so that [1 - a] is below zero,
    the distance that [getDistance] returns is NaN, for every [Math] that
    follows the rules of the language for NaN, and the sample is appended
    to the path whatever the time since the previous one.  This happens
    for two samples at opposite ends of the globe, 10 s apart. *)
Theorem nan_distance_is_recorded {M : JsMath} pos now st lastCoord :
  nan_rules M →
  last (recordedPath st) = Some lastCoord →
  (1 - haversine_term lastCoord (sample_of pos false now) <? 0)%float
    = true →
  getDistance lastCoord (sample_of pos false now) = nan
  ∧ is_outlier ((now - timestamp lastCoord) / 1000)%float
      (getDistance lastCoord (sample_of pos false now)) = false
  ∧ recordedPath (recordCoordinate pos false now st)
    = recordedPath st ++ [sample_of pos false now].
Proof.
  intros [Hsqrt Hatan] Hl Ha.
  assert (Hd : getDistance lastCoord (sample_of pos false now) = nan).
  { change (getDistance lastCoord (sample_of pos false now))
      with (6371e3
            * (2 * Math_atan2
                     (Math_sqrt
                        (haversine_term lastCoord (sample_of pos false now)))
                     (Math_sqrt
                        (1 - haversine_term lastCoord
                               (sample_of pos false now)))))%float.
    by rewrite (Hsqrt _ Ha), Hatan. }
  assert (Ho : is_outlier ((now - timestamp lastCoord) / 1000)%float
                 (getDistance lastCoord (sample_of pos false now)) = false).
  { rewrite Hd. unfold is_outlier. apply andb_false_r. }
  split; [done|]. split; [done|].
  destruct (recordCoordinate_cases pos false now st)
    as [(_ & _ & l & Hl' & Ho')|(Heq & _)]; [|done].
  rewrite Hl in Hl'. injection Hl' as <-. congruence.
Qed.

Lemma nan_distance_is_recorded_witness :
  nan_rules polar_math
  ∧ last (recordedPath one_sample_far_south)
    = Some (sample_of far_south false 1700000000000)
  ∧ ((1700000010000 - 1700000000000) / 1000 = 10)%float
  ∧ haversine_term (M := polar_math)
      (sample_of far_south false 1700000000000)
      (sample_of far_north false 1700000010000)
    = 0x1.0000000000001p+0%float
  ∧ (1 - haversine_term (M := polar_math)
           (sample_of far_south false 1700000000000)
           (sample_of far_north false 1700000010000)
     = -0x1p-52)%float
  ∧ getDistance (M := polar_math)
      (sample_of far_south false 1700000000000)
      (sample_of far_north false 1700000010000) = nan
  ∧ recordedPath (recordCoordinate (M := polar_math) far_north false
                    1700000010000 one_sample_far_south)
    = [sample_of far_south false 1700000000000;
       sample_of far_north false 1700000010000].
Proof.
  assert (Hrules : nan_rules polar_math).
  { split.
    - intros x Hx. simpl. by rewrite Hx.
    - intros y. simpl. change (is_nan nan) with true.
      by rewrite orb_true_r. }
  assert (Hl : last (recordedPath one_sample_far_south)
               = Some (sample_of far_south false 1700000000000))
    by evaluate.
  split; [exact Hrules|]. split; [exact Hl|]. split; [evaluate|].
  split; [evaluate|]. split; [evaluate|].
  destruct (nan_distance_is_recorded (M := polar_math) far_north
              1700000010000%float one_sample_far_south _ Hrules Hl
              ltac:(evaluate)) as (Hd & _ & Hrec).
  split; [exact Hd|]. rewrite Hrec. evaluate.
Defined.

(** C5. A manual marker is appended to the path whatever the previous
    point, the time and the distance are: from the query that
    [dropMarker] issues when the path is empty, and from [dropMarker]
    itself, which reuses the last point, when it is not. *)
Theorem manual_marker_always_recorded {M : JsMath} pos now st :
  recordedPath (recordCoordinate pos true now st)
    = recordedPath st ++ [sample_of pos true now]
  ∧ recordedPath (dropMarker_position pos now st)
    = recordedPath st ++ [sample_of pos true now]
  ∧ (∀ l, isRecording st = true → last (recordedPath st) = Some l →
       recordedPath (fst (dropMarker now st))
       = recordedPath st
         ++ [{| lat := lat l; lng := lng l; timestamp := now;
                isManual := true |}]).
Proof.
  assert (H : ∀ p, recordedPath (recordCoordinate p true now st)
                   = recordedPath st ++ [sample_of p true now]).
  { intros p.
    destruct (recordCoordinate_cases p true now st)
      as [(_ & ? & _)|(Heq & _)]; [done|exact Heq]. }
  split; [apply H|]. split; [apply H|].
  intros l Hr Hl. unfold dropMarker. rewrite Hr, Hl. simpl.
  apply H.
Qed.

Lemma manual_marker_always_recorded_witness :
  isRecording one_sample = true
  ∧ last (recordedPath one_sample)
    = Some (sample_of here false 1700000000000)
  ∧ recordedPath (fst (dropMarker (M := fixed_angle angle_1000m)
                         1700000000001 one_sample))
    = [sample_of here false 1700000000000;
       sample_of here true 1700000000001]
  ∧ recordedPath (recordCoordinate (M := fixed_angle angle_1000m)
                    there true 1700000000001 one_sample)
    = [sample_of here false 1700000000000;
       sample_of there true 1700000000001]
  ∧ recordedPath (recordCoordinate (M := fixed_angle angle_1000m)
                    there false 1700000000001 one_sample)
    = [sample_of here false 1700000000000].
Proof.
  assert (Hr : isRecording one_sample = true) by evaluate.
  assert (Hl : last (recordedPath one_sample)
               = Some (sample_of here false 1700000000000)) by evaluate.
  split; [exact Hr|]. split; [exact Hl|].
  destruct (manual_marker_always_recorded (M := fixed_angle angle_1000m)
              there 1700000000001%float one_sample) as (Hrec & _ & Hdrop).
  split; [rewrite (Hdrop _ Hr Hl); evaluate|].
  split; [rewrite Hrec; evaluate|evaluate].
Defined.

(** C9. Starting a recording while none is running empties the path,
    whatever it held, forgets the path layer and takes it off the map. *)
Theorem start_clears_previous_path geo st :
  isRecording st = false →
  recordedPath (startTracking geo st) = []
  ∧ pathLayer (startTracking geo st) = None
  ∧ (∀ id m, pathLayer st = Some id → map st = Some m →
       map (startTracking geo st) = Some (removeLayer id m)
       ∧ layers (removeLayer id m) !! id = None).
Proof.
  intros Hr. unfold startTracking. rewrite Hr.
  destruct (pathLayer st) as [id|] eqn:Ep; destruct geo as [w|]; simpl;
    rewrite ?Ep; (split; [done|]); (split; [done|]); intros id' m;
    try done.
  all: intros [= <-] ->; simpl; split; [done|apply lookup_delete_eq].
Qed.

Lemma start_clears_previous_path_witness :
  isRecording finished_session = false
  ∧ length (recordedPath finished_session) = 3
  ∧ pathLayer finished_session = Some 0
  ∧ (∃ m pts, map finished_session = Some m
              ∧ layers m !! 0 = Some (Polyline pts))
  ∧ recordedPath (startTracking (Some 8) finished_session) = []
  ∧ pathLayer (startTracking (Some 8) finished_session) = None
  ∧ (∃ m, map (startTracking (Some 8) finished_session) = Some m
          ∧ layers m !! 0 = None).
Proof.
  assert (Hr : isRecording finished_session = false) by evaluate.
  assert (Hp : pathLayer finished_session = Some 0) by evaluate.
  destruct (map finished_session) as [m|] eqn:Em;
    [|vm_compute in Em; discriminate Em].
  split; [exact Hr|]. split; [evaluate|]. split; [exact Hp|].
  split.
  { exists m. vm_compute in Em. injection Em as <-.
    eexists. split; [reflexivity|]. evaluate. }
  destruct (start_clears_previous_path (Some 8) finished_session Hr)
    as (Hpath & Hlayer & Hmap).
  split; [exact Hpath|]. split; [exact Hlayer|].
  destruct (Hmap 0 m Hp Em) as (Hm' & Hgone).
  exists (removeLayer 0 m). split; [exact Hm'|exact Hgone].
Defined.

End GpsFacts.

(** ** Properties of the lifecycle and the map of the path recorder *)

Module GpsSessionFacts.

Import Gps GpsSession.

(** *** Layers are only added *)

Lemma grows_refl m : grows m m.
Proof. unfold grows. auto. Qed.

Lemma grows_trans m1 m2 m3 : grows m1 m2 → grows m2 m3 → grows m1 m3.
Proof.
  intros (Hc1 & Hz1 & Hn1 & Hl1 & Hf1) (Hc2 & Hz2 & Hn2 & Hl2 & Hf2).
  unfold grows. split; [congruence|]. split; [congruence|].
  split; [lia|]. split; [|auto].
  intros id Hid. rewrite Hl2 by lia. auto.
Qed.

Lemma grows_addMarker p icon m : grows m (addMarker p icon m).
Proof.
  unfold grows, addMarker, addTo, fresh_stamps. simpl.
  split; [done|]. split; [done|]. split; [lia|]. split.
  - intros id Hid. rewrite lookup_insert_ne by lia. done.
  - intros Hf id. destruct (decide (nextStamp m = id)) as [<-|Hne]; [lia|].
    rewrite lookup_insert_ne by done. intros H%Hf. lia.
Qed.

Lemma grows_manual_markers path : ∀ m, grows m (manual_markers path m).
Proof.
  unfold manual_markers.
  induction path as [|c path IH]; simpl; intros m; [apply grows_refl|].
  eapply grows_trans; [|apply IH].
  destruct (isManual c); [apply grows_addMarker|apply grows_refl].
Qed.

Lemma grows_draw_markers isFinal path m :
  grows m (draw_markers isFinal path m).
Proof.
  unfold draw_markers.
  destruct (head path) as [start|]; [|apply grows_refl].
  destruct (last path) as [end_|]; [|apply grows_refl].
  eapply grows_trans; [apply grows_addMarker|].
  eapply grows_trans; [|apply grows_manual_markers].
  destruct (1 <? _); [apply grows_addMarker|apply grows_refl].
Qed.

(** *** [updateMapPath], step by step *)

Lemma updateMapPath_steps isFinal st m :
  map st = Some m → no_marker_held st →
  updateMapPath isFinal st
  = set_map
      (Some (draw_markers isFinal (recordedPath st)
               (view_step (coords (recordedPath st))
                  (path_layer_step (coords (recordedPath st))
                     (pathLayer st) m).1)))
      (clear_markers
         (set_pathLayer
            (path_layer_step (coords (recordedPath st)) (pathLayer st) m).2
            st)).
Proof.
  intros Hm (Hs & He & Hmm). unfold updateMapPath.
  rewrite Hm, Hs, He, Hmm. unfold path_layer_step, coords.
  destruct (pathLayer st) as [id|]; [done|].
  by destruct (0 <? length _).
Qed.

Lemma isRecording_updateMapPath isFinal st :
  isRecording (updateMapPath isFinal st) = isRecording st.
Proof.
  unfold updateMapPath.
  destruct (map st) as [m|]; [|done].
  destruct (pathLayer st) as [id|]; [done|].
  by destruct (0 <? length _).
Qed.

Lemma watchId_updateMapPath isFinal st :
  watchId (updateMapPath isFinal st) = watchId st.
Proof.
  unfold updateMapPath.
  destruct (map st) as [m|]; [|done].
  destruct (pathLayer st) as [id|]; [done|].
  by destruct (0 <? length _).
Qed.

Lemma view_step_layers latlngs m :
  layers (view_step latlngs m) = layers m
  ∧ nextStamp (view_step latlngs m) = nextStamp m.
Proof. unfold view_step. by destruct (last latlngs). Qed.

Lemma fresh_view_step latlngs m :
  fresh_stamps m → fresh_stamps (view_step latlngs m).
Proof.
  unfold fresh_stamps. destruct (view_step_layers latlngs m) as [-> ->].
  done.
Qed.

(** What [updateMapPath] makes of a state that holds no marker and whose
    path layer is a polyline on the map. *)
Lemma updateMapPath_spec isFinal st :
  no_marker_held st → path_layer_on_map st →
  no_marker_held (updateMapPath isFinal st)
  ∧ path_drawn (updateMapPath isFinal st)
  ∧ markers_kept st (updateMapPath isFinal st).
Proof.
  intros Hno (m & Hm & Hf & Hpl).
  rewrite (updateMapPath_steps isFinal st m Hm Hno).
  split; [done|].
  set (latlngs := coords (recordedPath st)).
  assert (Hstep : ∃ m1 pl,
    path_layer_step latlngs (pathLayer st) m = (m1, pl)
    ∧ fresh_stamps m1
    ∧ match pl with
      | Some id => layers m1 !! id = Some (Polyline latlngs)
      | None => recordedPath st = []
      end
    ∧ ∀ id p icon, layers m !! id = Some (Marker p icon) →
        layers m1 !! id = Some (Marker p icon)).
  { unfold path_layer_step.
    destruct (pathLayer st) as [id|] eqn:Ep.
    - destruct (Hpl id eq_refl) as [pts Hpts].
      eexists _, _. split; [reflexivity|]. simpl. split; [|split].
      + intros j. unfold setLatLngs. simpl.
        rewrite lookup_alter_is_Some. apply Hf.
      + by rewrite lookup_alter_eq, Hpts.
      + intros j p icon Hj.
        rewrite lookup_alter_ne; [done|]. intros <-. congruence.
    - destruct (0 <? length latlngs) eqn:El.
      + eexists _, _. split; [reflexivity|]. simpl. split; [|split].
        * intros j. simpl.
          destruct (decide (nextStamp m = j)) as [<-|Hne]; [lia|].
          rewrite lookup_insert_ne by done. intros H%Hf. lia.
        * apply lookup_insert_eq.
        * intros j p icon Hj.
          assert (j < nextStamp m) by (apply Hf; by rewrite Hj).
          rewrite lookup_insert_ne by lia. done.
      + eexists _, _. split; [reflexivity|]. simpl. split; [done|].
        split; [|done].
        subst latlngs. unfold coords in El. rewrite length_fmap in El.
        destruct (recordedPath st); [done|discriminate El]. }
  destruct Hstep as (m1 & pl & -> & Hf1 & Hdrawn & Hkept). cbn [fst snd].
  destruct (view_step_layers latlngs m1) as [Hvl Hvn].
  destruct (grows_draw_markers isFinal (recordedPath st)
              (view_step latlngs m1)) as (_ & _ & Hn & Hl & Hfr).
  assert (Hfv : fresh_stamps (view_step latlngs m1))
    by (by apply fresh_view_step).
  split.
  - eexists. split; [reflexivity|]. split; [by apply Hfr|].
    cbn [pathLayer recordedPath set_map clear_markers set_pathLayer].
    destruct pl as [id|]; [|done].
    rewrite Hl, Hvl; [done|].
    rewrite Hvn. apply Hf1. by rewrite Hdrawn.
  - intros m0 id p icon Hm0 Hid. rewrite Hm in Hm0. injection Hm0 as <-.
    eexists. split; [reflexivity|].
    apply Hkept in Hid. rewrite Hl, Hvl; [done|].
    rewrite Hvn. apply Hf1. by rewrite Hid.
Qed.

(** *** The view *)

Lemma updateMapPath_all_steps isFinal st m :
  map st = Some m →
  updateMapPath isFinal st
  = set_map
      (Some (draw_markers isFinal (recordedPath st)
               (remove_held st
                  (view_step (coords (recordedPath st))
                     (path_layer_step (coords (recordedPath st))
                        (pathLayer st) m).1))))
      (clear_markers
         (set_pathLayer
            (path_layer_step (coords (recordedPath st)) (pathLayer st) m).2
            st)).
Proof.
  intros Hm. unfold updateMapPath. rewrite Hm.
  unfold path_layer_step, coords.
  destruct (pathLayer st) as [id|]; [done|].
  by destruct (0 <? length _).
Qed.

Lemma view_remove_held st m :
  center (remove_held st m) = center m ∧ zoom (remove_held st m) = zoom m.
Proof.
  unfold remove_held.
  assert (H : ∀ ids m0,
    center (foldl (λ m id, removeLayer id m) m0 ids) = center m0
    ∧ zoom (foldl (λ m id, removeLayer id m) m0 ids) = zoom m0).
  { induction ids as [|id ids IH]; simpl; [done|].
    intros m0. by destruct (IH (removeLayer id m0)) as [-> ->]. }
  destruct (H (manualMarkers st)
              (from_option (λ id, removeLayer id
                 (from_option (λ id, removeLayer id m) m (startMarker st)))
                 (from_option (λ id, removeLayer id m) m (startMarker st))
                 (endMarker st))) as [-> ->].
  by destruct (startMarker st), (endMarker st).
Qed.

Lemma view_path_layer_step latlngs pl m :
  center (path_layer_step latlngs pl m).1 = center m
  ∧ zoom (path_layer_step latlngs pl m).1 = zoom m.
Proof.
  unfold path_layer_step.
  destruct pl; [done|]. by destruct (0 <? length latlngs).
Qed.

Lemma last_coords path :
  last (coords path) = (λ c, (lat c, lng c)) <$> last path.
Proof. apply fmap_last. Qed.

Lemma updateMapPath_view isFinal st m p :
  map st = Some m → last (recordedPath st) = Some p →
  ∃ m', map (updateMapPath isFinal st) = Some m'
        ∧ center m' = (lat p, lng p)
        ∧ zoom m' = (if zoom m <? 14 then 14 else zoom m)%float.
Proof.
  intros Hm Hp. rewrite (updateMapPath_all_steps isFinal st m Hm).
  eexists. split; [reflexivity|].
  destruct (grows_draw_markers isFinal (recordedPath st)
              (remove_held st
                 (view_step (coords (recordedPath st))
                    (path_layer_step (coords (recordedPath st))
                       (pathLayer st) m).1))) as (-> & -> & _).
  destruct (view_remove_held st
              (view_step (coords (recordedPath st))
                 (path_layer_step (coords (recordedPath st))
                    (pathLayer st) m).1)) as [-> ->].
  destruct (view_path_layer_step (coords (recordedPath st)) (pathLayer st) m)
    as [Hc Hz].
  unfold view_step. rewrite !last_coords, Hp. simpl.
  by rewrite Hz.
Qed.

Section WithMath.

Context {M : JsMath}.

Lemma recordCoordinate_form pos isManual now st :
  recordCoordinate pos isManual now st
    = set_message "Skipped GPS outlier" st
  ∨ recordCoordinate pos isManual now st
    = updateMapPath false
        (set_message (if isManual then "Manual marker dropped"
                      else "Path recorded")
           (set_recordedPath
              (recordedPath st ++ [sample_of pos isManual now]) st)).
Proof.
  unfold recordCoordinate.
  match goal with
  | |- context [if ?b then set_message _ _ else _] => destruct b
  end; [by left|by right].
Qed.

(** *** What every event keeps *)

Lemma markers_kept_refl st : markers_kept st st.
Proof. intros m id p icon Hm Hid. eauto. Qed.

Lemma markers_kept_same_map st st' :
  map st' = map st → markers_kept st st'.
Proof. intros H m id p icon Hm Hid. rewrite H. eauto. Qed.

Lemma markers_kept_trans st1 st2 st3 :
  markers_kept st1 st2 → markers_kept st2 st3 → markers_kept st1 st3.
Proof.
  intros H12 H23 m id p icon Hm Hid.
  destruct (H12 m id p icon Hm Hid) as (m2 & Hm2 & Hid2).
  by apply (H23 m2).
Qed.

Lemma path_drawn_on_map st :
  path_drawn st → path_layer_on_map st.
Proof.
  intros (m & Hm & Hf & Hd). exists m. split; [done|]. split; [done|].
  intros id Hid. rewrite Hid in Hd. eauto.
Qed.

Lemma kept_recordCoordinate pos isManual now st :
  no_marker_held st → path_drawn st →
  no_marker_held (recordCoordinate pos isManual now st)
  ∧ path_drawn (recordCoordinate pos isManual now st)
  ∧ markers_kept st (recordCoordinate pos isManual now st).
Proof.
  intros Hno Hd.
  destruct (recordCoordinate_form pos isManual now st) as [->| ->].
  - split; [done|]. split; [done|]. by apply markers_kept_same_map.
  - destruct (updateMapPath_spec false
                (set_message (if isManual then "Manual marker dropped"
                              else "Path recorded")
                   (set_recordedPath
                      (recordedPath st ++ [sample_of pos isManual now]) st)))
      as (H1 & H2 & H3); [done|by apply path_drawn_on_map in Hd|].
    split; [done|]. split; [done|].
    eapply markers_kept_trans; [|exact H3].
    by apply markers_kept_same_map.
Qed.

Lemma kept_startTracking geo st :
  no_marker_held st → path_drawn st →
  no_marker_held (startTracking geo st)
  ∧ path_drawn (startTracking geo st)
  ∧ markers_kept st (startTracking geo st).
Proof.
  intros Hno (m & Hm & Hf & Hd). unfold startTracking.
  destruct (isRecording st).
  { split; [done|]. split; [by exists m|]. by apply markers_kept_same_map. }
  assert (H : ∀ st', no_marker_held st' → path_drawn st' →
                     markers_kept st st' →
    no_marker_held (match geo with
       | Some id =>
           set_message "Tracking started. Recording path..."
             (set_isRecording true (set_watchId (Some id) st'))
       | None => set_message "Geolocation not supported by this browser." st'
       end)
    ∧ path_drawn (match geo with
       | Some id =>
           set_message "Tracking started. Recording path..."
             (set_isRecording true (set_watchId (Some id) st'))
       | None => set_message "Geolocation not supported by this browser." st'
       end)
    ∧ markers_kept st (match geo with
       | Some id =>
           set_message "Tracking started. Recording path..."
             (set_isRecording true (set_watchId (Some id) st'))
       | None => set_message "Geolocation not supported by this browser." st'
       end)) by (intros st' ? ? ?; by destruct geo).
  simpl. destruct (pathLayer st) as [id|] eqn:Ep; apply H; clear H.
  - done.
  - exists (removeLayer id m). simpl. rewrite Hm. split; [done|].
    split; [|done].
    intros j. simpl. destruct (decide (id = j)) as [->|Hne].
    + rewrite lookup_delete_eq. by intros [? ?].
    + rewrite lookup_delete_ne by done. apply Hf.
  - intros m0 j p icon Hm0 Hj. rewrite Hm in Hm0. injection Hm0 as <-.
    exists (removeLayer id m). simpl. rewrite Hm. split; [done|].
    rewrite lookup_delete_ne; [done|]. intros <-. congruence.
  - done.
  - exists m. simpl. rewrite Ep. done.
  - by apply markers_kept_same_map.
Qed.

Lemma kept_step st e :
  no_marker_held st → path_drawn st →
  no_marker_held (step st e) ∧ path_drawn (step st e)
  ∧ markers_kept st (step st e).
Proof.
  intros Hno Hd. destruct e as [geo| |now|pos now|pos now]; simpl.
  - by apply kept_startTracking.
  - unfold stopAndScreenshot. destruct (isRecording st); simpl.
    + destruct (updateMapPath_spec true
                  (set_message "Tracking stopped. Preparing screenshot..."
                     (set_isRecording false (set_watchId None st))))
        as (H1 & H2 & H3); [done|by apply path_drawn_on_map in Hd|].
      split; [done|]. split; [done|].
      eapply markers_kept_trans; [|exact H3].
      by apply markers_kept_same_map.
    + split; [done|]. split; [done|]. by apply markers_kept_same_map.
  - unfold dropMarker. destruct (isRecording st); simpl.
    + destruct (last (recordedPath st)) as [l|]; simpl.
      * by apply kept_recordCoordinate.
      * split; [done|]. split; [done|]. by apply markers_kept_same_map.
    + split; [done|]. split; [done|]. by apply markers_kept_same_map.
  - by apply kept_recordCoordinate.
  - by apply kept_recordCoordinate.
Qed.

Lemma kept_run es : ∀ st,
  no_marker_held st → path_drawn st →
  no_marker_held (run st es) ∧ path_drawn (run st es)
  ∧ markers_kept st (run st es).
Proof.
  unfold run. induction es as [|e es IH]; simpl; intros st Hno Hd.
  - split; [done|]. split; [done|]. by apply markers_kept_same_map.
  - destruct (kept_step st e Hno Hd) as (Hno1 & Hd1 & Hk1).
    destruct (IH _ Hno1 Hd1) as (Hno2 & Hd2 & Hk2).
    split; [done|]. split; [done|]. by eapply markers_kept_trans.
Qed.

Lemma mounted_kept m :
  fresh_stamps m → no_marker_held (mounted m) ∧ path_drawn (mounted m).
Proof. intros Hf. split; [done|]. by exists m. Qed.

(** *** Recording and the watch *)

Lemma watch_iff_step st e :
  (isRecording st = true ↔ is_Some (watchId st)) →
  (isRecording (step st e) = true ↔ is_Some (watchId (step st e))).
Proof.
  intros Hinv.
  assert (Hrc : ∀ pos b now,
    isRecording (recordCoordinate pos b now st) = isRecording st
    ∧ watchId (recordCoordinate pos b now st) = watchId st).
  { intros pos b now.
    destruct (recordCoordinate_form pos b now st) as [->| ->]; [done|].
    by rewrite isRecording_updateMapPath, watchId_updateMapPath. }
  destruct e as [geo| |now|pos now|pos now]; simpl.
  - unfold startTracking. destruct (isRecording st) eqn:E;
      [by rewrite E|].
    simpl. destruct (pathLayer st); destruct geo as [w|]; simpl;
      rewrite ?E; try exact Hinv; split; eauto.
  - unfold stopAndScreenshot. destruct (isRecording st) eqn:E; simpl.
    + rewrite isRecording_updateMapPath, watchId_updateMapPath. simpl.
      split; [done|]. by intros [? ?].
    + rewrite ?E. exact Hinv.
  - unfold dropMarker. destruct (isRecording st) eqn:E; simpl.
    + destruct (last (recordedPath st)) as [l|]; simpl.
      * destruct (Hrc {| latitude := lat l; longitude := lng l |} true now)
          as [-> ->]. exact Hinv.
      * rewrite ?E. exact Hinv.
    + rewrite ?E. exact Hinv.
  - unfold watch_position. by destruct (Hrc pos false now) as [-> ->].
  - unfold dropMarker_position. by destruct (Hrc pos true now) as [-> ->].
Qed.

Lemma path_step st e :
  is_start e = false ∨ isRecording st = true →
  ∃ l, recordedPath (step st e) = recordedPath st ++ l ∧ length l ≤ 1.
Proof.
  assert (Hrc : ∀ pos b now,
    ∃ l, recordedPath (recordCoordinate pos b now st) = recordedPath st ++ l
         ∧ length l ≤ 1).
  { intros pos b now.
    destruct (recordCoordinate_form pos b now st) as [->| ->].
    - exists []. rewrite app_nil_r. simpl. split; [done|lia].
    - rewrite GpsFacts.recordedPath_updateMapPath. simpl.
      eexists [_]. split; [done|simpl; lia]. }
  assert (H0 : ∃ l, recordedPath st = recordedPath st ++ l ∧ length l ≤ 1).
  { exists []. rewrite app_nil_r. simpl. split; [done|lia]. }
  intros Hcase. destruct e as [geo| |now|pos now|pos now]; simpl.
  - destruct Hcase as [?|Hr]; [done|]. unfold startTracking. by rewrite Hr.
  - unfold stopAndScreenshot. destruct (isRecording st); simpl; [|done].
    by rewrite GpsFacts.recordedPath_updateMapPath.
  - unfold dropMarker. destruct (isRecording st); simpl; [|done].
    destruct (last (recordedPath st)); simpl; [apply Hrc|done].
  - apply Hrc.
  - apply Hrc.
Qed.

Lemma recordCoordinate_keeps pos b now st :
  isRecording (recordCoordinate pos b now st) = isRecording st
  ∧ watchId (recordCoordinate pos b now st) = watchId st.
Proof.
  destruct (recordCoordinate_form pos b now st) as [->| ->]; [done|].
  by rewrite isRecording_updateMapPath, watchId_updateMapPath.
Qed.

Lemma watch_iff_run es : ∀ st,
  (isRecording st = true ↔ is_Some (watchId st)) →
  (isRecording (run st es) = true ↔ is_Some (watchId (run st es))).
Proof.
  unfold run. induction es as [|e es IH]; simpl; [done|].
  intros st H. apply IH. by apply watch_iff_step.
Qed.

(** *** Further properties of the path recorder *)

(** X10. The component holds a geolocation watch exactly while it is
    recording: after any events on a mounted component, [isRecording] is
    set if and only if [watchId] is not [null]. *)
Theorem watch_held_while_recording m es :
  isRecording (run (mounted m) es) = true
  ↔ is_Some (watchId (run (mounted m) es)).
Proof.
  apply watch_iff_run. simpl. split; [done|]. by intros [? ?].
Qed.

(** X11. After any events on a component mounted on a map, the path
    layer that the component holds is a polyline on the map whose points
    are the recorded path, in order; when it holds none, the path is
    empty. *)
Theorem path_layer_draws_path m es :
  fresh_stamps m → path_drawn (run (mounted m) es).
Proof.
  intros Hf. destruct (mounted_kept m Hf) as [Hno Hd].
  by destruct (kept_run es (mounted m) Hno Hd) as (_ & ? & _).
Qed.

(** X12. The component never holds a marker in [startMarker],
    [endMarker] or [manualMarkers], so no redraw and no start takes a
    marker off the map: a marker that is on the map after some events is
    still there, unchanged, after any further events. *)
Theorem markers_are_never_removed m es1 es2 :
  fresh_stamps m →
  no_marker_held (run (mounted m) es1)
  ∧ markers_kept (run (mounted m) es1) (run (mounted m) (es1 ++ es2)).
Proof.
  intros Hf. destruct (mounted_kept m Hf) as [Hno Hd].
  destruct (kept_run es1 (mounted m) Hno Hd) as (Hno1 & Hd1 & _).
  split; [done|].
  unfold run at 2. rewrite foldl_app.
  by destruct (kept_run es2 _ Hno1 Hd1) as (_ & _ & ?).
Qed.

(** X13. When a sample is appended to the path and there is a map, the
    map is centred on the sample; its zoom is kept when it is 14 or more
    and set to 14 otherwise, so it is not below 14 afterwards. *)
Theorem map_follows_sample pos isManual now st m :
  map st = Some m →
  recordedPath (recordCoordinate pos isManual now st)
    = recordedPath st ++ [sample_of pos isManual now] →
  ∃ m', map (recordCoordinate pos isManual now st) = Some m'
        ∧ center m' = (latitude pos, longitude pos)
        ∧ zoom m' = (if zoom m <? 14 then 14 else zoom m)%float
        ∧ (zoom m' <? 14)%float = false.
Proof.
  intros Hm Hpath.
  destruct (recordCoordinate_form pos isManual now st) as [Heq|Heq];
    rewrite Heq in Hpath |- *.
  { simpl in Hpath. symmetry in Hpath.
    by apply app_singleton_neq in Hpath. }
  destruct (updateMapPath_view false
              (set_message (if isManual then "Manual marker dropped"
                            else "Path recorded")
                 (set_recordedPath
                    (recordedPath st ++ [sample_of pos isManual now]) st))
              m (sample_of pos isManual now) Hm)
    as (m' & Hm' & Hc & Hz); [apply last_snoc|].
  exists m'. split; [done|]. split; [done|]. split; [done|].
  rewrite Hz. by destruct (zoom m <? 14)%float eqn:E.
Qed.

(** X14. The first position after a start is always recorded: the path
    of the session before does not count for the filter, since the start
    has cleared it. *)
Theorem first_sample_is_recorded w pos now st :
  isRecording st = false →
  recordedPath (run st [Start (Some w); WatchFix pos now])
    = [sample_of pos false now]
  ∧ isRecording (run st [Start (Some w); WatchFix pos now]) = true.
Proof.
  intros Hr. unfold run. simpl. unfold watch_position.
  assert (Hs : recordedPath (startTracking (Some w) st) = []
               ∧ isRecording (startTracking (Some w) st) = true).
  { unfold startTracking. rewrite Hr. simpl.
    by destruct (pathLayer st). }
  destruct Hs as [Hp Hi].
  destruct (recordCoordinate_keeps pos false now
              (startTracking (Some w) st)) as [-> _].
  split; [|done].
  destruct (GpsFacts.recordCoordinate_cases pos false now
              (startTracking (Some w) st))
    as [(_ & _ & l & Hl & _)|[Heq _]].
  - rewrite Hp in Hl. done.
  - by rewrite Heq, Hp.
Qed.

(** X15. Only a start clears samples: over events that are not starts,
    the path before is a prefix of the path after, and each event adds at
    most one sample. *)
Theorem path_only_grows es : ∀ st,
  forallb (λ e, negb (is_start e)) es = true →
  recordedPath st `prefix_of` recordedPath (run st es)
  ∧ length (recordedPath (run st es))
    ≤ length (recordedPath st) + length es.
Proof.
  unfold run. induction es as [|e es IH]; simpl; intros st.
  - intros _. split; [done|lia].
  - intros [He Hes]%andb_prop.
    destruct (path_step st e) as (l & Hl & Hlen).
    { left. by destruct (is_start e). }
    destruct (IH (step st e) Hes) as [Hpre Hlen'].
    rewrite Hl in Hpre, Hlen'. rewrite length_app in Hlen'. split.
    + etrans; [|exact Hpre]. by apply prefix_app_r.
    + lia.
Qed.

End WithMath.

(** *** No other polyline *)

Lemma polyline_addMarker p icon m id pts :
  layers (addMarker p icon m) !! id = Some (Polyline pts) →
  layers m !! id = Some (Polyline pts).
Proof.
  unfold addMarker, addTo. simpl.
  destruct (decide (nextStamp m = id)) as [<-|Hne].
  - by rewrite lookup_insert_eq.
  - by rewrite lookup_insert_ne.
Qed.

Lemma polyline_manual_markers path : ∀ m id pts,
  layers (manual_markers path m) !! id = Some (Polyline pts) →
  layers m !! id = Some (Polyline pts).
Proof.
  unfold manual_markers.
  induction path as [|c path IH]; simpl; intros m id pts; [done|].
  intros H%IH. destruct (isManual c); [|done].
  by apply polyline_addMarker in H.
Qed.

Lemma polyline_draw_markers isFinal path m id pts :
  layers (draw_markers isFinal path m) !! id = Some (Polyline pts) →
  layers m !! id = Some (Polyline pts).
Proof.
  unfold draw_markers.
  destruct (head path) as [start|]; [|done].
  destruct (last path) as [end_|]; [|done].
  intros H%polyline_manual_markers.
  destruct (1 <? _); [apply polyline_addMarker in H|];
    by apply polyline_addMarker in H.
Qed.

Lemma polyline_updateMapPath isFinal st :
  no_marker_held st → only_path_polyline st →
  only_path_polyline (updateMapPath isFinal st).
Proof.
  intros Hno Hinv.
  destruct (map st) as [m|] eqn:Hm.
  2: { unfold updateMapPath. by rewrite Hm. }
  rewrite (updateMapPath_steps isFinal st m Hm Hno).
  intros m' id pts [= <-] H%polyline_draw_markers.
  destruct (view_step_layers (coords (recordedPath st))
              (path_layer_step (coords (recordedPath st))
                 (pathLayer st) m).1) as [Hvl _].
  rewrite Hvl in H. clear Hvl. simpl. revert H.
  unfold path_layer_step.
  destruct (pathLayer st) as [pl|] eqn:Ep; simpl.
  - destruct (decide (pl = id)) as [->|Hne]; [done|].
    rewrite lookup_alter_ne by done. intros H.
    by rewrite <- (Hinv m id pts Hm H).
  - destruct (0 <? length _); simpl.
    + destruct (decide (nextStamp m = id)) as [->|Hne]; [done|].
      rewrite lookup_insert_ne by done. intros H.
      specialize (Hinv m id pts Hm H). congruence.
    + intros H. specialize (Hinv m id pts Hm H). congruence.
Qed.

Section WithMath.

Context {M : JsMath}.

Lemma polyline_recordCoordinate pos isManual now st :
  no_marker_held st → only_path_polyline st →
  only_path_polyline (recordCoordinate pos isManual now st).
Proof.
  intros Hno Hinv.
  destruct (recordCoordinate_form pos isManual now st) as [->| ->];
    [done|].
  by apply polyline_updateMapPath.
Qed.

Lemma polyline_step st e :
  no_marker_held st → only_path_polyline st →
  only_path_polyline (step st e).
Proof.
  intros Hno Hinv. destruct e as [geo| |now|pos now|pos now]; simpl.
  - unfold startTracking. destruct (isRecording st); [done|].
    assert (H : only_path_polyline
      match pathLayer (set_recordedPath [] st) with
      | Some id =>
          set_pathLayer None
            (set_map (removeLayer id <$> map (set_recordedPath [] st))
               (set_recordedPath [] st))
      | None => set_recordedPath [] st
      end).
    { simpl. destruct (pathLayer st) as [pl|] eqn:Ep; [|done].
      intros m' id pts. simpl.
      destruct (map st) as [m|] eqn:Hm; [|done]. simpl.
      intros [= <-]. simpl.
      destruct (decide (pl = id)) as [->|Hne].
      - by rewrite lookup_delete_eq.
      - rewrite lookup_delete_ne by done. intros H.
        specialize (Hinv m id pts Hm H). congruence. }
    by destruct geo.
  - unfold stopAndScreenshot. destruct (isRecording st); simpl; [|done].
    by apply polyline_updateMapPath.
  - unfold dropMarker. destruct (isRecording st); simpl; [|done].
    destruct (last (recordedPath st)); simpl; [|done].
    by apply polyline_recordCoordinate.
  - by apply polyline_recordCoordinate.
  - by apply polyline_recordCoordinate.
Qed.

Lemma polyline_run es : ∀ st,
  no_marker_held st → path_drawn st → only_path_polyline st →
  only_path_polyline (run st es).
Proof.
  unfold run. induction es as [|e es IH]; simpl; intros st Hno Hd Hinv.
  - done.
  - destruct (kept_step st e Hno Hd) as (Hno1 & Hd1 & _).
    apply IH; [done|done|]. by apply polyline_step.
Qed.

(** X17. On a map that shows no polyline when the component is mounted,
    the only polyline after any events is the path layer that the
    component holds: no path of an earlier session stays drawn. *)
Theorem no_stale_path_on_map m es :
  fresh_stamps m →
  (∀ id pts, layers m !! id ≠ Some (Polyline pts)) →
  only_path_polyline (run (mounted m) es).
Proof.
  intros Hf Hnone. destruct (mounted_kept m Hf) as [Hno Hd].
  apply polyline_run; [done|done|].
  intros m' id pts [= <-] H. by apply Hnone in H.
Qed.

End WithMath.

(** *** Witnesses *)

Lemma fresh_empty_map : fresh_stamps empty_map.
Proof. intros id. simpl. rewrite lookup_empty. by intros [? ?]. Qed.

Lemma path_layer_draws_path_witness :
  fresh_stamps empty_map
  ∧ path_drawn (run (M := fixed_angle angle_100m) (mounted empty_map)
                  marked_session)
  ∧ length (recordedPath (run (M := fixed_angle angle_100m)
                            (mounted empty_map) marked_session)) = 3.
Proof.
  split; [exact fresh_empty_map|]. split; [|evaluate].
  apply (path_layer_draws_path (M := fixed_angle angle_100m)).
  exact fresh_empty_map.
Defined.

Lemma markers_are_never_removed_witness :
  fresh_stamps empty_map
  ∧ (∃ m, map (run (M := fixed_angle angle_100m) (mounted empty_map)
                 [Start (Some 7); WatchFix here 1700000000000])
          = Some m
          ∧ layers m !! 1
            = Some (Marker (3.125, 101.6875)%float
                      (DivIcon "S" "start-marker")))
  ∧ (∃ m, map (run (M := fixed_angle angle_100m) (mounted empty_map)
                 ([Start (Some 7); WatchFix here 1700000000000]
                  ++ [WatchFix there 1700000010000; Stop; Start (Some 8);
                      WatchFix there 1700000030000]))
          = Some m
          ∧ layers m !! 1
            = Some (Marker (3.125, 101.6875)%float
                      (DivIcon "S" "start-marker"))).
Proof.
  split; [exact fresh_empty_map|].
  destruct (map (run (M := fixed_angle angle_100m) (mounted empty_map)
                   [Start (Some 7); WatchFix here 1700000000000]))
    as [m|] eqn:Em; [|vm_compute in Em; discriminate Em].
  assert (Hl : layers m !! 1
               = Some (Marker (3.125, 101.6875)%float
                         (DivIcon "S" "start-marker"))).
  { vm_compute in Em. injection Em as <-. evaluate. }
  split; [by exists m|].
  destruct (markers_are_never_removed (M := fixed_angle angle_100m)
              empty_map [Start (Some 7); WatchFix here 1700000000000]
              [WatchFix there 1700000010000; Stop; Start (Some 8);
               WatchFix there 1700000030000] fresh_empty_map)
    as [_ Hkept].
  exact (Hkept m 1 _ _ Em Hl).
Defined.

Lemma no_stale_path_on_map_witness :
  fresh_stamps empty_map
  ∧ (∀ id pts, layers empty_map !! id ≠ Some (Polyline pts))
  ∧ pathLayer (run (M := fixed_angle angle_100m) (mounted empty_map)
                 (marked_session
                  ++ [Start (Some 8); WatchFix here 1700000030000]))
    = Some 10
  ∧ ∀ m id pts,
      map (run (M := fixed_angle angle_100m) (mounted empty_map)
             (marked_session
              ++ [Start (Some 8); WatchFix here 1700000030000])) = Some m →
      layers m !! id = Some (Polyline pts) → id = 10.
Proof.
  assert (Hnone : ∀ id pts, layers empty_map !! id ≠ Some (Polyline pts)).
  { intros id pts. simpl. by rewrite lookup_empty. }
  split; [exact fresh_empty_map|]. split; [exact Hnone|].
  assert (Hp : pathLayer (run (M := fixed_angle angle_100m)
                 (mounted empty_map)
                 (marked_session
                  ++ [Start (Some 8); WatchFix here 1700000030000]))
               = Some 10) by evaluate.
  split; [exact Hp|].
  intros m id pts Hm Hid.
  pose proof (no_stale_path_on_map (M := fixed_angle angle_100m) empty_map
                (marked_session
                 ++ [Start (Some 8); WatchFix here 1700000030000])
                fresh_empty_map Hnone m id pts Hm Hid) as H.
  rewrite Hp in H. by injection H.
Defined.

Lemma map_follows_sample_witness :
  map one_sample = Some
    (default empty_map (map one_sample))
  ∧ ∃ m', map (recordCoordinate (M := fixed_angle angle_100m) there false
                 1700000010000 one_sample) = Some m'
          ∧ center m' = (3.1328125, 101.6875)%float
          ∧ (zoom m' <? 14)%float = false.
Proof.
  assert (Hm : map one_sample = Some (default empty_map (map one_sample)))
    by evaluate.
  split; [exact Hm|].
  destruct (map_follows_sample (M := fixed_angle angle_100m) there false
              1700000010000%float one_sample _ Hm ltac:(evaluate))
    as (m' & Hm' & Hc & _ & Hz).
  exists m'. split; [exact Hm'|]. split; [exact Hc|exact Hz].
Defined.

Lemma first_sample_is_recorded_witness :
  isRecording finished_session = false
  ∧ length (recordedPath finished_session) = 3
  ∧ recordedPath (run (M := fixed_angle angle_1000m) finished_session
                    [Start (Some 8); WatchFix here 1700000020001])
    = [sample_of here false 1700000020001].
Proof.
  assert (Hr : isRecording finished_session = false) by evaluate.
  split; [exact Hr|]. split; [evaluate|].
  apply (first_sample_is_recorded (M := fixed_angle angle_1000m) 8 here
           1700000020001%float finished_session Hr).
Defined.

Lemma path_only_grows_witness :
  recordedPath one_sample
    `prefix_of` recordedPath (run (M := fixed_angle angle_1000m) one_sample
                  [WatchFix there 1700000010000; Drop 1700000020000; Stop])
  ∧ length (recordedPath (run (M := fixed_angle angle_1000m) one_sample
              [WatchFix there 1700000010000; Drop 1700000020000; Stop]))
    = 2.
Proof.
  split; [|evaluate].
  apply (path_only_grows (M := fixed_angle angle_1000m)
           [WatchFix there 1700000010000; Drop 1700000020000; Stop]
           one_sample).
  reflexivity.
Defined.

End GpsSessionFacts.

(** ** Properties of the screenshot *)

Module ScreenshotFacts.

Import Gps Screenshot.

(** X16. With the map and its element in place, the callback disables the
    six interaction handlers and sets the freeze class before the capture,
    and however the capture goes (saved, failed while encoding, rejected)
    and whatever happened to the page and the state meanwhile, it ends
    with the six handlers enabled and the class removed.  A file is saved
    only when the capture succeeds; otherwise the error is logged and the
    message tells of the failure. *)
Theorem screenshot_restores_interaction c now st pg st2 pg2 :
  is_Some (map st) → is_Some (map st2) →
  (screenshot_begin true st pg).1.1 = st
  ∧ (screenshot_begin true st pg).2 = true
  ∧ handlers (screenshot_begin true st pg).1.2 = all_handlers false
  ∧ leafletFreeze (screenshot_begin true st pg).1.2 = true
  ∧ handlers (screenshot_end c now st2 pg2).2 = all_handlers true
  ∧ leafletFreeze (screenshot_end c now st2 pg2).2 = false
  ∧ match c with
    | Saved =>
        downloads (screenshot_end c now st2 pg2).2 = downloads pg2 ++ [now]
        ∧ errors (screenshot_end c now st2 pg2).2 = errors pg2
        ∧ message (screenshot_end c now st2 pg2).1
          = "Tracking stopped. Screenshot saved."
    | EncodeThrows err | RenderRejects err =>
        downloads (screenshot_end c now st2 pg2).2 = downloads pg2
        ∧ errors (screenshot_end c now st2 pg2).2 = errors pg2 ++ [err]
        ∧ message (screenshot_end c now st2 pg2).1
          = "Screenshot failed during capture."
    end.
Proof.
  intros [m Hm] [m2 Hm2].
  unfold screenshot_begin, screenshot_end, capture_failed, freezeMap,
    freezeLeaflet, unfreezeMap, restoreLeaflet.
  simpl. rewrite Hm, Hm2. by destruct c.
Qed.

Lemma screenshot_restores_interaction_witness :
  is_Some (map finished_session)
  ∧ handlers (screenshot_end (EncodeThrows "tainted canvas")
                1700000020150 finished_session
                (screenshot_begin true finished_session
                   {| handlers := all_handlers true; leafletFreeze := false;
                      leafletPosCleared := false; downloads := [];
                      errors := [] |}).1.2).2
    = all_handlers true
  ∧ handlers (screenshot_begin true finished_session
                {| handlers := all_handlers true; leafletFreeze := false;
                   leafletPosCleared := false; downloads := [];
                   errors := [] |}).1.2
    = all_handlers false.
Proof.
  assert (Hm : is_Some (map finished_session)) by (vm_compute; eauto).
  split; [exact Hm|].
  destruct (screenshot_restores_interaction (EncodeThrows "tainted canvas")
              1700000020150%float finished_session
              {| handlers := all_handlers true; leafletFreeze := false;
                 leafletPosCleared := false; downloads := [];
                 errors := [] |}
              finished_session
              (screenshot_begin true finished_session
                 {| handlers := all_handlers true; leafletFreeze := false;
                    leafletPosCleared := false; downloads := [];
                    errors := [] |}).1.2 Hm Hm)
    as (_ & _ & Hoff & _ & Hon & _).
  split; [exact Hon|exact Hoff].
Defined.

End ScreenshotFacts.
